(** * Batch orchestration of the Zork I interpreter (zork_persistent.py, zork_python.py)

    Shallow embedding of the two Python orchestrators of the repository:
    - [Persistent]: zork_persistent.py, which keeps one device handle open for
      the whole session and calls [zork_tt.execute_batch] repeatedly;
    - [Subprocess]: zork_python.py, which runs the C++ executable once per
      batch through [subprocess.run].

    Python text is modelled as a list of Unicode code points ([pystr]), so
    that [in], [startswith], [split('\n')], ['\n'.join] and [strip()] are
    written out as Python defines them on [str]. *)

From Stdlib Require Import List NArith ZArith String Ascii Bool Lia.
Import ListNotations.

Open Scope N_scope.

(** ** Python strings *)

Definition pystr := list N.

Fixpoint of_ascii (s : string) : pystr :=
  match s with
  | EmptyString => []
  | String c s' => N_of_ascii c :: of_ascii s'
  end.

Definition NL : N := 10.          (* '\n' *)
Definition BOX_TL : N := 9556.    (* U+2554 '╔' *)
Definition BOX_BL : N := 9562.    (* U+255A '╚' *)
Definition BOX_V : N := 9553.     (* U+2551 '║' *)
Definition EQ : N := 61.          (* '=' *)

(** [str.isspace] on one code point (Python 3: bidirectional class WS, B, S
    or category Zs). *)
Definition is_space (c : N) : bool :=
  ((9 <=? c) && (c <=? 13)) || ((28 <=? c) && (c <=? 31)) || (c =? 32)
  || (c =? 133) || (c =? 160) || (c =? 5760)
  || ((8192 <=? c) && (c <=? 8202)) || (c =? 8232) || (c =? 8233)
  || (c =? 8239) || (c =? 8287) || (c =? 12288).

Fixpoint lstrip (s : pystr) : pystr :=
  match s with
  | [] => []
  | c :: s' => if is_space c then lstrip s' else s
  end.

Definition rstrip (s : pystr) : pystr := rev (lstrip (rev s)).

(** [s.strip()] *)
Definition strip (s : pystr) : pystr := rstrip (lstrip s).

(** Truthiness of [s.strip()]. *)
Definition strip_nonempty (s : pystr) : bool :=
  match strip s with [] => false | _ => true end.

(** [s.split('\n')] *)
Fixpoint split_nl (s : pystr) : list pystr :=
  match s with
  | [] => [[]]
  | c :: s' =>
      let r := split_nl s' in
      if c =? NL then [] :: r
      else match r with
           | [] => [[c]]
           | l :: ls => (c :: l) :: ls
           end
  end.

(** ['\n'.join(ls)] *)
Fixpoint join_nl (ls : list pystr) : pystr :=
  match ls with
  | [] => []
  | l :: ls' =>
      match ls' with
      | [] => l
      | _ => l ++ NL :: join_nl ls'
      end
  end.

(** [s.startswith(p)] *)
Fixpoint is_prefix (p s : pystr) : bool :=
  match p, s with
  | [], _ => true
  | a :: p', b :: s' => (a =? b) && is_prefix p' s'
  | _ :: _, [] => false
  end.

(** [p in s] *)
Fixpoint contains (p s : pystr) : bool :=
  is_prefix p s || match s with [] => false | _ :: s' => contains p s' end.

(** ** Markers used by the two parsers *)

Definition ACC_MARKER : pystr := of_ascii "ACCUMULATED ZORK OUTPUT".
Definition ZORK_OUTPUT : pystr := of_ascii "ZORK OUTPUT".
Definition INTERPRET : pystr := of_ascii "interpret(".
Definition GAME_COMPLETE : pystr := of_ascii "Game complete".

(** ** Output parser of [run_zork_batch] (zork_python.py, lines 88-105) *)

Fixpoint py_scan (in_output : bool) (lines : list pystr) : list pystr :=
  match lines with
  | [] => []
  | line :: rest =>
      if contains ACC_MARKER line then py_scan true rest
      else if in_output then
        if is_prefix [BOX_BL] line then []            (* break *)
        else if negb (is_prefix [BOX_TL] line) && negb (is_prefix [BOX_V] line)
        then line :: py_scan true rest
        else py_scan true rest
      else py_scan false rest
  end.

Definition py_extract (output : pystr) : pystr :=
  if contains ACC_MARKER output
  then strip (join_nl (py_scan false (split_nl output)))
  else [].

(** ** Output parser of zork_persistent.py main (lines 124-135 and 150) *)

Definition box_chars : list N := [BOX_TL; BOX_BL; BOX_V; EQ].

Definition has_box_char (line : pystr) : bool :=
  existsb (fun ch => contains [ch] line) box_chars.

Fixpoint p_scan (in_output : bool) (lines : list pystr) : list pystr :=
  match lines with
  | [] => []
  | line :: rest =>
      if contains ZORK_OUTPUT line || contains INTERPRET line then p_scan true rest
      else if in_output && strip_nonempty line then
        if negb (has_box_char line) then line :: p_scan true rest
        else p_scan true rest
      else p_scan in_output rest
  end.

Definition p_extract (output : pystr) : pystr :=
  strip (join_nl (p_scan false (split_nl output))).

(** The frame of one batch: [batch_text] and the [Game complete] test. *)
Definition p_frame (output : pystr) : pystr * bool :=
  (p_extract output, contains GAME_COMPLETE output).

(** ** Python exceptions and a state/exception monad *)

(** [Exception] is what [except Exception] catches; [KeyboardInterrupt]
    (a [BaseException]) is not caught by it. *)
Inductive exc := Exception | KeyboardInterrupt.

Inductive res (A : Type) := Ok (a : A) | Raise (e : exc).
Arguments Ok {A} a.
Arguments Raise {A} e.

(** Observable effects of a session, in order: calls to the engine or the
    file system and the report lines printed to the user. *)
Inductive event :=
| EGameMissing | EExeMissing
| EInitDevice | EInitFailed
| ELoadGame | ELoadFailed
| EReadState | ESetState (b : list Byte.byte) | EResumed | EFresh
| EUnlinkState
| EExec (n : nat) | EBatchFailed | EBatchError (n : nat)
| EFinished (n : nat)
| EGetState | EWriteState (b : list Byte.byte) | EStateSaved | ESaveFailed
| EDisplay (acc : pystr) | ESuccess (n : nat)
| ECloseDevice (h : Z) | ECloseFailed
| EInterrupted.

Record pstate := { plog : list event; ncalls : nat }.

Definition st0 : pstate := {| plog := []; ncalls := 0 |}.

Definition M (A : Type) := pstate -> res A * pstate.

Definition ret {A} (a : A) : M A := fun s => (Ok a, s).

Definition bind {A B} (m : M A) (k : A -> M B) : M B :=
  fun s => match m s with
           | (Ok a, s1) => k a s1
           | (Raise e, s1) => (Raise e, s1)
           end.

Notation "x <- m ;; k" := (bind m (fun x => k))
  (at level 61, m at next level, right associativity).
Notation "' p <- m ;; k" := (bind m (fun x => match x with p => k end))
  (at level 61, p pattern, m at next level, right associativity).
Notation "m ;;; k" := (bind m (fun _ => k)) (at level 61, right associativity).

Definition emit (e : event) : M unit :=
  fun s => (Ok tt, {| plog := plog s ++ [e]; ncalls := ncalls s |}).

(** A call to an external function whose outcome is [r]. *)
Definition lift {A} (r : res A) : M A := fun s => (r, s).

(** [try: m  except Exception: ...]: [None] when [Exception] was caught. *)
Definition catch_exc {A} (m : M A) : M (option A) :=
  fun s => match m s with
           | (Ok a, s1) => (Ok (Some a), s1)
           | (Raise Exception, s1) => (Ok None, s1)
           | (Raise KeyboardInterrupt, s1) => (Raise KeyboardInterrupt, s1)
           end.

(** [try: m  except KeyboardInterrupt: h] *)
Definition catch_interrupt {A} (m : M A) (h : M A) : M A :=
  fun s => match m s with
           | (Raise KeyboardInterrupt, s1) => h s1
           | r => r
           end.

(** [try: m  finally: fin] *)
Definition try_finally {A} (m : M A) (fin : M unit) : M A :=
  fun s => match m s with
           | (r, s1) =>
               match fin s1 with
               | (Ok _, s2) => (r, s2)
               | (Raise e, s2) => (Raise e, s2)
               end
           end.

(** One engine invocation, the [n]-th of the session (1-based):
    [oracle n] is what the engine answers. *)
Definition call_engine {A} (oracle : nat -> res A) : M A :=
  fun s => let n := S (ncalls s) in
           (oracle n, {| plog := plog s ++ [EExec n]; ncalls := n |}).

(** [accumulated_output += batch_text + "\n"] when [batch_text] is non-empty. *)
Definition add_text (acc text : pystr) : pystr :=
  match text with [] => acc | _ => acc ++ text ++ [NL] end.

(** ** zork_persistent.py *)
Module Persistent.

(** What the device binding ([zork_tt]) and the file system answer. *)
Record Device := {
  game_file_exists : bool;                       (* Path(GAME_FILE).exists() *)
  init_device : res Z;                           (* zork_tt.init_device() *)
  load_game : res unit;                          (* zork_tt.load_game(...) *)
  state_file_exists : bool;                      (* Path(STATE_FILE).exists() *)
  read_state_file : res (list Byte.byte);        (* open(STATE_FILE,"rb").read() *)
  set_state : list Byte.byte -> res unit;        (* zork_tt.set_state(...) *)
  execute_batch : nat -> res pystr;              (* k-th zork_tt.execute_batch *)
  get_state : res (list Byte.byte);              (* zork_tt.get_state(device) *)
  write_state_file : list Byte.byte -> res unit; (* open(STATE_FILE,"wb").write *)
  close_device : res unit                        (* zork_tt.close_device(device) *)
}.

Definition MAX_BATCHES : nat := 50.

Section Main.
Variable max_batches : nat.

(** [while batch <= MAX_BATCHES: ...] (lines 115-157); [fuel] bounds the
    iterations (called with [max_batches], batch starting at 1). The result
    is [(accumulated_output, batch)] at loop exit. *)
Fixpoint batch_loop (exec : nat -> res pystr) (fuel : nat) (batch : nat)
    (acc : pystr) : M (pystr * nat) :=
  match fuel with
  | O => ret (acc, batch)
  | S fuel' =>
      if Nat.leb batch max_batches then
        r <- catch_exc (call_engine exec) ;;
        match r with
        | None => emit EBatchFailed ;;; ret (acc, batch)
        | Some output =>
            let '(batch_text, finished) := p_frame output in
            let acc' := add_text acc batch_text in
            let batch' := S batch in
            if finished || Nat.ltb max_batches batch' then
              emit (EFinished (batch' - 1)) ;;; ret (acc', batch')
            else batch_loop exec fuel' batch' acc'
        end
      else ret (acc, batch)
  end.

(** "Load previous state if exists" (lines 97-105). *)
Definition resume (d : Device) : M unit :=
  if state_file_exists d then
    emit EReadState ;;;
    b <- lift (read_state_file d) ;;
    emit (ESetState b) ;;;
    lift (set_state d b) ;;;
    emit EResumed
  else emit EFresh.

(** "Save state" and "Display output" (lines 159-180). *)
Definition finish (d : Device) (acc : pystr) (batch : nat) : M Z :=
  saved <- catch_exc (emit EGetState ;;;
                      b <- lift (get_state d) ;;
                      emit (EWriteState b) ;;;
                      lift (write_state_file d b)) ;;
  (match saved with None => emit ESaveFailed | Some _ => emit EStateSaved end) ;;;
  emit (EDisplay acc) ;;;
  emit (ESuccess (batch - 1)) ;;;
  ret 0%Z.

(** The part of [main] after [load_game]: resume, loop, save, display. *)
Definition run_session (d : Device) : M Z :=
  resume d ;;;
  ' (acc, batch) <- batch_loop (execute_batch d) max_batches 1 [] ;;
  finish d acc batch.

Definition cleanup (d : Device) (device : Z) : M unit :=
  emit (ECloseDevice device) ;;;
  c <- catch_exc (lift (close_device d)) ;;
  match c with None => emit ECloseFailed | Some _ => ret tt end.

(** The [try:] block of lines 84-180. *)
Definition session_body (d : Device) : M Z :=
  l <- catch_exc (emit ELoadGame ;;; lift (load_game d)) ;;
  match l with
  | None => emit ELoadFailed ;;; ret 1%Z
  | Some _ => run_session d
  end.

Definition main (d : Device) : M Z :=
  if negb (game_file_exists d) then emit EGameMissing ;;; ret 1%Z
  else
    h <- catch_exc (emit EInitDevice ;;; lift (init_device d)) ;;
    match h with
    | None => emit EInitFailed ;;; ret 1%Z
    | Some device => try_finally (session_body d) (cleanup d device)
    end.

End Main.
End Persistent.

(** ** zork_python.py *)
Module Subprocess.

Record Runner := {
  exe_exists : bool;                       (* Path(ZORK_EXECUTABLE).exists() *)
  game_exists : bool;                      (* Path(GAME_FILE).exists() *)
  state_exists : bool;                     (* Path(STATE_FILE).exists() *)
  unlink_state : res unit;                 (* Path(STATE_FILE).unlink() *)
  run_subprocess : nat -> res (Z * pystr)  (* k-th subprocess.run: (returncode, stdout) *)
}.

Definition MAX_BATCHES : nat := 50.

Section Main.
Variable max_batches : nat.

(** What [run_zork_batch] returns once the process has finished
    (lines 80-108). *)
Definition batch_result (batch_num : nat) (returncode : Z) (stdout : pystr)
    : pystr * bool :=
  if negb (returncode =? 0)%Z then ([], false)
  else (py_extract stdout,
        contains GAME_COMPLETE stdout || Nat.leb max_batches batch_num).

Definition run_zork_batch (r : Runner) (batch_num : nat) : M (pystr * bool) :=
  ' (returncode, stdout) <- call_engine (run_subprocess r) ;;
  (if negb (returncode =? 0)%Z then emit (EBatchError batch_num) else ret tt) ;;;
  ret (batch_result batch_num returncode stdout).

(** [while batch <= MAX_BATCHES: ...] (lines 156-169). *)
Fixpoint batch_loop (r : Runner) (fuel : nat) (batch : nat) (acc : pystr)
    : M (pystr * nat) :=
  match fuel with
  | O => ret (acc, batch)
  | S fuel' =>
      if Nat.leb batch max_batches then
        ' (output, finished) <- run_zork_batch r batch ;;
        let acc' := add_text acc output in
        if finished then emit (EFinished batch) ;;; ret (acc', batch)
        else batch_loop r fuel' (S batch) acc'
      else ret (acc, batch)
  end.

(** The [try:] block of lines 155-180. *)
Definition session (r : Runner) : M Z :=
  ' (acc, batch) <- batch_loop r max_batches 1 [] ;;
  emit (EDisplay acc) ;;;
  emit (ESuccess batch) ;;;
  ret 0%Z.

Definition main (r : Runner) : M Z :=
  if negb (exe_exists r) then emit EExeMissing ;;; ret 1%Z
  else if negb (game_exists r) then emit EGameMissing ;;; ret 1%Z
  else
    (if state_exists r then emit EUnlinkState ;;; lift (unlink_state r)
     else ret tt) ;;;
    catch_interrupt (session r) (emit EInterrupted ;;; ret 130%Z).

End Main.
End Subprocess.

(** * Properties *)

(** ** Lemmas on Python strings *)

Lemma split_nl_nonnil (s : pystr) : split_nl s <> [].
Proof.
  induction s as [|c s IH]; simpl; [discriminate|].
  destruct (c =? NL); [discriminate|].
  destruct (split_nl s); discriminate.
Qed.

Lemma split_nl_app (l s : pystr) :
  ~ In NL l ->
  split_nl (l ++ s) =
  match split_nl s with [] => [l] | x :: xs => (l ++ x) :: xs end.
Proof.
  induction l as [|c l IH]; intros Hl; simpl.
  - destruct (split_nl s) eqn:E; [exfalso; exact (split_nl_nonnil s E)|reflexivity].
  - rewrite IH by (intro; apply Hl; now right).
    assert (Hc : (c =? NL) = false) by (apply N.eqb_neq; intro; subst; apply Hl; now left).
    rewrite Hc. destruct (split_nl s); reflexivity.
Qed.

Lemma split_join (ls : list pystr) :
  ls <> [] -> Forall (fun l => ~ In NL l) ls -> split_nl (join_nl ls) = ls.
Proof.
  induction ls as [|l ls IH]; intros Hne Hall; [congruence|].
  inversion Hall as [|? ? Hl Hrest]; subst.
  destruct ls as [|l' ls'].
  - simpl. rewrite <- (app_nil_r l) at 1. rewrite split_nl_app by exact Hl.
    simpl. now rewrite app_nil_r.
  - change (join_nl (l :: l' :: ls')) with (l ++ NL :: join_nl (l' :: ls')).
    rewrite split_nl_app by exact Hl.
    change (split_nl (NL :: join_nl (l' :: ls')))
      with ([] :: split_nl (join_nl (l' :: ls'))).
    rewrite IH by (discriminate || exact Hrest).
    now rewrite app_nil_r.
Qed.

Lemma split_nl_no_nl (s : pystr) : Forall (fun l => ~ In NL l) (split_nl s).
Proof.
  induction s as [|c s IH]; simpl.
  - constructor; [intros []|constructor].
  - destruct (c =? NL) eqn:Hc; [constructor; [intros []|exact IH]|].
    apply N.eqb_neq in Hc.
    destruct (split_nl s) as [|l ls]; [constructor; [intros [H|[]]; congruence|constructor]|].
    inversion IH; subst. constructor; [|assumption].
    intros [H|H]; [congruence|contradiction].
Qed.

Lemma is_prefix_app (p s t : pystr) :
  is_prefix p s = true -> is_prefix p (s ++ t) = true.
Proof.
  revert s; induction p as [|a p IH]; intros [|b s] H; simpl in *; try easy.
  apply andb_true_iff in H as [H1 H2]. now rewrite H1, IH.
Qed.

Lemma contains_app_r (p s t : pystr) :
  contains p s = true -> contains p (s ++ t) = true.
Proof.
  induction s as [|b s IH]; intros H; simpl in *.
  - destruct p; simpl in *; [destruct t; reflexivity|discriminate].
  - apply orb_true_iff in H as [H|H].
    + change (b :: s ++ t) with ((b :: s) ++ t). now rewrite is_prefix_app.
    + rewrite IH by exact H. apply orb_true_r.
Qed.

Lemma contains_app_l (p s t : pystr) :
  contains p s = true -> contains p (t ++ s) = true.
Proof.
  induction t as [|b t IH]; intros H; simpl; [exact H|].
  rewrite IH by exact H. apply orb_true_r.
Qed.

Lemma contains_join (p l : pystr) (pre post : list pystr) :
  contains p l = true -> contains p (join_nl (pre ++ l :: post)) = true.
Proof.
  intros H. induction pre as [|x pre IH]; simpl.
  - destruct post; [exact H|]. now apply contains_app_r.
  - destruct (pre ++ l :: post) eqn:E; [destruct pre; discriminate|].
    apply (contains_app_l p _ x), (contains_app_l p _ [NL]), IH.
Qed.

(** ** The subprocess parser keeps the first frame only *)

Definition py_keep (l : pystr) : bool :=
  negb (contains ACC_MARKER l) && negb (is_prefix [BOX_TL] l)
  && negb (is_prefix [BOX_V] l).

Lemma py_scan_skip (pre rest : list pystr) :
  Forall (fun l => contains ACC_MARKER l = false) pre ->
  py_scan false (pre ++ rest) = py_scan false rest.
Proof.
  induction 1 as [|l pre Hl _ IH]; [reflexivity|].
  simpl. now rewrite Hl.
Qed.

Lemma py_scan_region (mid : list pystr) (e : pystr) (rest : list pystr) :
  Forall (fun l => contains ACC_MARKER l = true \/ is_prefix [BOX_BL] l = false) mid ->
  contains ACC_MARKER e = false -> is_prefix [BOX_BL] e = true ->
  py_scan true (mid ++ e :: rest) = filter py_keep mid.
Proof.
  intros Hmid He1 He2. induction Hmid as [|l mid Hl _ IH]; cbn [py_scan app filter].
  - now rewrite He1, He2.
  - unfold py_keep at 1.
    destruct (contains ACC_MARKER l) eqn:Ha; cbn [negb andb]; [exact IH|].
    destruct Hl as [Hl|Hl]; [discriminate|]. rewrite Hl.
    destruct (is_prefix [BOX_TL] l), (is_prefix [BOX_V] l); cbn [negb andb];
      now rewrite ?IH.
Qed.

(** ** The persistent parser has no end-of-section marker *)

Definition p_marker (l : pystr) : bool :=
  contains ZORK_OUTPUT l || contains INTERPRET l.

Definition p_keep (l : pystr) : bool :=
  negb (p_marker l) && strip_nonempty l && negb (has_box_char l).

Lemma p_scan_skip (pre rest : list pystr) :
  Forall (fun l => p_marker l = false) pre ->
  p_scan false (pre ++ rest) = p_scan false rest.
Proof.
  induction 1 as [|l pre Hl _ IH]; [reflexivity|].
  simpl. unfold p_marker in Hl. now rewrite Hl.
Qed.

Lemma p_scan_true (rest : list pystr) : p_scan true rest = filter p_keep rest.
Proof.
  induction rest as [|l rest IH]; [reflexivity|].
  simpl. unfold p_keep, p_marker.
  destruct (contains ZORK_OUTPUT l || contains INTERPRET l); simpl; [exact IH|].
  destruct (strip_nonempty l), (has_box_char l); simpl; now rewrite ?IH.
Qed.

Lemma p_scan_sub (b : bool) (ls : list pystr) (l : pystr) :
  In l (p_scan b ls) -> In l ls /\ p_keep l = true.
Proof.
  revert b; induction ls as [|x ls IH]; intros b H; simpl in H; [contradiction|].
  unfold p_keep, p_marker.
  destruct (contains ZORK_OUTPUT x || contains INTERPRET x) eqn:Hm.
  - apply IH in H as [H1 H2]. split; [now right|exact H2].
  - destruct (b && strip_nonempty x) eqn:Hb.
    + apply andb_true_iff in Hb as [_ Hb].
      destruct (has_box_char x) eqn:Hx; simpl in H.
      * apply IH in H as [H1 H2]. split; [now right|exact H2].
      * destruct H as [H|H].
        -- subst. split; [now left|]. now rewrite Hm, Hb, Hx.
        -- apply IH in H as [H1 H2]. split; [now right|exact H2].
    + apply IH in H as [H1 H2]. split; [now right|exact H2].
Qed.

Definition no_nl (l : pystr) : bool := negb (existsb (N.eqb NL) l).

Lemma no_nl_spec (l : pystr) : no_nl l = true -> ~ In NL l.
Proof.
  unfold no_nl. intros H Hin. apply negb_true_iff in H.
  assert (existsb (N.eqb NL) l = true) by (apply existsb_exists; exists NL; now rewrite N.eqb_refl).
  congruence.
Qed.

Lemma forallb_no_nl (ls : list pystr) :
  forallb no_nl ls = true -> Forall (fun l => ~ In NL l) ls.
Proof.
  intros H. apply Forall_forall. intros l Hl.
  apply no_nl_spec. exact (proj1 (forallb_forall _ _) H l Hl).
Qed.

Lemma forallb_Forall {X} (f : X -> bool) (ls : list X) (P : X -> Prop) :
  (forall x, f x = true -> P x) -> forallb f ls = true -> Forall P ls.
Proof.
  intros Hf H. apply Forall_forall. intros x Hx.
  apply Hf. exact (proj1 (forallb_forall _ _) H x Hx).
Qed.

Lemma py_first_frame (pre : list pystr) (s : pystr) (mid : list pystr) (e : pystr)
    (rest : list pystr) :
  forallb no_nl (pre ++ s :: mid ++ e :: rest) = true ->
  forallb (fun l => negb (contains ACC_MARKER l)) pre = true ->
  contains ACC_MARKER s = true ->
  forallb (fun l => contains ACC_MARKER l || negb (is_prefix [BOX_BL] l)) mid = true ->
  contains ACC_MARKER e = false -> is_prefix [BOX_BL] e = true ->
  py_extract (join_nl (pre ++ s :: mid ++ e :: rest)) = strip (join_nl (filter py_keep mid)).
Proof.
  intros Hnl Hpre Hs Hmid He1 He2. unfold py_extract.
  rewrite contains_join by exact Hs.
  rewrite split_join by (destruct pre; discriminate || now apply forallb_no_nl).
  rewrite py_scan_skip.
  - cbn [py_scan]. rewrite Hs, py_scan_region; [reflexivity| |exact He1|exact He2].
    apply (forallb_Forall _ _ _ (fun l H => H)) in Hmid.
    eapply Forall_impl; [|exact Hmid]. intros l Hl.
    apply orb_true_iff in Hl as [Hl|Hl]; [now left|right; now apply negb_true_iff].
  - eapply forallb_Forall; [|exact Hpre]. intros l Hl. now apply negb_true_iff.
Qed.

Lemma p_all_regions (pre : list pystr) (s : pystr) (rest : list pystr) :
  forallb no_nl (pre ++ s :: rest) = true ->
  forallb (fun l => negb (p_marker l)) pre = true ->
  p_marker s = true ->
  p_extract (join_nl (pre ++ s :: rest)) = strip (join_nl (filter p_keep rest)).
Proof.
  intros Hnl Hpre Hs. unfold p_extract.
  rewrite split_join by (destruct pre; discriminate || now apply forallb_no_nl).
  rewrite p_scan_skip.
  - cbn [p_scan]. unfold p_marker in Hs. now rewrite Hs, p_scan_true.
  - eapply forallb_Forall; [|exact Hpre]. intros l Hl. now apply negb_true_iff.
Qed.

(** C1: [run_zork_batch] (zork_python.py) takes the first frame only: the
    payload is made of the lines after the first line containing
    "ACCUMULATED ZORK OUTPUT" and before the first following line starting
    with '╚' (marker lines and lines starting with '╔' or '║' dropped),
    whatever follows.  The persistent orchestrator's parser has no end
    marker: after the first line containing "ZORK OUTPUT" or "interpret(",
    every kept line up to the end of the input is captured, later regions
    included. *)
Theorem C1_first_frame_policy :
  (forall (pre : list pystr) (s : pystr) (mid : list pystr) (e : pystr)
          (rest : list pystr),
    forallb no_nl (pre ++ s :: mid ++ e :: rest) = true ->
    forallb (fun l => negb (contains ACC_MARKER l)) pre = true ->
    contains ACC_MARKER s = true ->
    forallb (fun l => contains ACC_MARKER l || negb (is_prefix [BOX_BL] l)) mid = true ->
    contains ACC_MARKER e = false -> is_prefix [BOX_BL] e = true ->
    py_extract (join_nl (pre ++ s :: mid ++ e :: rest))
    = strip (join_nl (filter py_keep mid)))
  /\
  (forall (pre : list pystr) (s : pystr) (rest : list pystr),
    forallb no_nl (pre ++ s :: rest) = true ->
    forallb (fun l => negb (p_marker l)) pre = true ->
    p_marker s = true ->
    p_extract (join_nl (pre ++ s :: rest)) = strip (join_nl (filter p_keep rest))).
Proof. split; [exact py_first_frame|exact p_all_regions]. Qed.

Definition two_regions (start : pystr) : list pystr :=
  [of_ascii "noise"; start; of_ascii "foo"; [BOX_BL]; start; of_ascii "bar"; [BOX_BL]].

Lemma C1_first_frame_policy_witness :
  py_extract (join_nl (two_regions ACC_MARKER)) = of_ascii "foo"
  /\ p_extract (join_nl (two_regions ZORK_OUTPUT)) = of_ascii "foo" ++ NL :: of_ascii "bar".
Proof.
  split.
  - refine (eq_trans (proj1 C1_first_frame_policy [of_ascii "noise"] ACC_MARKER
              [of_ascii "foo"] [BOX_BL] [ACC_MARKER; of_ascii "bar"; [BOX_BL]]
              _ _ _ _ _ _) _); vm_compute; reflexivity.
  - refine (eq_trans (proj2 C1_first_frame_policy [of_ascii "noise"] ZORK_OUTPUT
              [of_ascii "foo"; [BOX_BL]; ZORK_OUTPUT; of_ascii "bar"; [BOX_BL]]
              _ _ _) _); vm_compute; reflexivity.
Defined.

(** C1 (counterexample): on an output with two frames, the persistent
    orchestrator's payload contains the content of the second frame. *)
Lemma C1_persistent_keeps_later_frames :
  p_extract (join_nl (two_regions ZORK_OUTPUT)) = of_ascii "foo" ++ NL :: of_ascii "bar".
Proof. vm_compute. reflexivity. Qed.

(** C4: whenever the raw output contains "Game complete", both parsers flag
    the batch as terminal: the persistent frame's flag and the [is_finished]
    result of [run_zork_batch] (for a process that exited with status 0),
    wherever the sentinel sits. *)
Theorem C4_sentinel_terminal (output : pystr) :
  contains GAME_COMPLETE output = true ->
  snd (p_frame output) = true
  /\ forall max_batches batch_num,
       snd (Subprocess.batch_result max_batches batch_num 0%Z output) = true.
Proof.
  intros H. split; [exact H|]. intros m k. unfold Subprocess.batch_result.
  simpl. now rewrite H.
Qed.

Lemma C4_sentinel_terminal_witness :
  snd (p_frame (of_ascii "Game complete" ++ NL :: ZORK_OUTPUT)) = true
  /\ forall m k, snd (Subprocess.batch_result m k 0%Z
                        (of_ascii "Game complete" ++ NL :: ZORK_OUTPUT)) = true.
Proof.
  apply C4_sentinel_terminal. vm_compute. reflexivity.
Defined.

(** ** Lines of the persistent payload *)

Definition all_space (l : pystr) : Prop := Forall (fun c => is_space c = true) l.

Lemma lstrip_nil_iff (l : pystr) : lstrip l = [] <-> all_space l.
Proof.
  unfold all_space. induction l as [|c l IH]; simpl; [split; intros; [constructor|reflexivity]|].
  destruct (is_space c) eqn:Hc.
  - rewrite IH. split; [intros H; now constructor|now inversion 1].
  - split; [discriminate|inversion 1; congruence].
Qed.

Lemma lstrip_app (l x : pystr) : lstrip l <> [] -> lstrip (l ++ x) = lstrip l ++ x.
Proof.
  induction l as [|c l IH]; simpl; intros H; [congruence|].
  destruct (is_space c); [now apply IH|reflexivity].
Qed.

Lemma lstrip_idem (l : pystr) : lstrip (lstrip l) = lstrip l.
Proof.
  induction l as [|c l IH]; simpl; [reflexivity|].
  destruct (is_space c) eqn:Hc; [exact IH|simpl; now rewrite Hc].
Qed.

Lemma lstrip_suffix (l : pystr) : exists p, l = p ++ lstrip l.
Proof.
  induction l as [|c l [p IH]]; simpl; [now exists []|].
  destruct (is_space c); [exists (c :: p); simpl; now f_equal|now exists []].
Qed.

Lemma all_space_rev (l : pystr) : all_space (rev l) <-> all_space l.
Proof.
  unfold all_space. rewrite !Forall_forall.
  split; intros H c Hc; apply H; apply in_rev; [|exact Hc].
  now rewrite rev_involutive.
Qed.

Lemma rstrip_nil_iff (l : pystr) : rstrip l = [] <-> all_space l.
Proof.
  unfold rstrip. rewrite <- all_space_rev, <- lstrip_nil_iff.
  split; intros H; [|now rewrite H].
  destruct (lstrip (rev l)) as [|x y]; [reflexivity|].
  simpl in H. apply app_eq_nil in H as [_ H]. discriminate.
Qed.

Lemma rstrip_app (x l : pystr) : rstrip l <> [] -> rstrip (x ++ l) = x ++ rstrip l.
Proof.
  unfold rstrip. intros H. rewrite rev_app_distr, lstrip_app.
  - now rewrite rev_app_distr, rev_involutive.
  - intros E. apply H. now rewrite E.
Qed.

Lemma rstrip_prefix (l : pystr) : exists q, l = rstrip l ++ q.
Proof.
  unfold rstrip. destruct (lstrip_suffix (rev l)) as [p Hp].
  exists (rev p). rewrite <- rev_app_distr, <- Hp. now rewrite rev_involutive.
Qed.

Lemma strip_nonempty_iff (l : pystr) : strip_nonempty l = true <-> ~ all_space l.
Proof.
  unfold strip_nonempty, strip.
  destruct (rstrip (lstrip l)) eqn:E.
  - split; [discriminate|]. intros H. exfalso. apply H.
    apply rstrip_nil_iff in E. apply lstrip_nil_iff in E.
    rewrite lstrip_idem in E. now apply lstrip_nil_iff.
  - split; [intros _ Hs|reflexivity].
    apply lstrip_nil_iff in Hs. rewrite Hs in E. discriminate.
Qed.

Lemma contains_single (c : N) (l : pystr) : contains [c] l = true <-> In c l.
Proof.
  induction l as [|b l IH]; simpl; [split; [discriminate|contradiction]|].
  rewrite andb_true_r, orb_true_iff, IH, N.eqb_eq. split; intros [H|H]; auto.
Qed.

(** A line of a payload: not blank and free of '\n', '╔', '╚', '║', '='. *)
Definition payload_line (l : pystr) : Prop :=
  ~ all_space l /\ Forall (fun c => ~ In c (NL :: box_chars)) l.

Lemma payload_line_sub (l a b : pystr) :
  payload_line (a ++ l ++ b) -> ~ all_space l -> payload_line l.
Proof.
  intros [_ H] Hl. split; [exact Hl|].
  rewrite Forall_forall in *. intros c Hc. apply H. apply in_app_iff. right.
  apply in_app_iff. now left.
Qed.

Lemma payload_line_lstrip (l : pystr) : payload_line l -> payload_line (lstrip l).
Proof.
  intros Hl. destruct (lstrip_suffix l) as [p Hp].
  apply (payload_line_sub _ p []). { now rewrite app_nil_r, <- Hp. }
  rewrite <- lstrip_nil_iff, lstrip_idem, lstrip_nil_iff. apply Hl.
Qed.

Lemma payload_line_rstrip (l : pystr) : payload_line l -> payload_line (rstrip l).
Proof.
  intros Hl. destruct (rstrip_prefix l) as [q Hq].
  apply (payload_line_sub _ [] q). { simpl. now rewrite <- Hq. }
  intros Hs. apply (proj1 Hl). apply rstrip_nil_iff.
  apply rstrip_nil_iff in Hs. unfold rstrip in *.
  now rewrite rev_involutive, lstrip_idem in Hs.
Qed.

Lemma join_cons (a : pystr) (L : list pystr) :
  L <> [] -> join_nl (a :: L) = a ++ NL :: join_nl L.
Proof. destruct L; [congruence|reflexivity]. Qed.

Lemma join_snoc (X : list pystr) (y : pystr) :
  X <> [] -> join_nl (X ++ [y]) = join_nl X ++ NL :: y.
Proof.
  induction X as [|x X IH]; intros H; [congruence|].
  destruct X as [|x' X']; [reflexivity|].
  change ((x :: x' :: X') ++ [y]) with (x :: ((x' :: X') ++ [y])).
  rewrite join_cons by (destruct X'; discriminate).
  rewrite IH by discriminate. rewrite (join_cons x (x' :: X')) by discriminate.
  now rewrite <- app_assoc.
Qed.

Lemma has_box_char_false (l : pystr) :
  has_box_char l = false <-> Forall (fun c => ~ In c box_chars) l.
Proof.
  unfold has_box_char. rewrite Forall_forall. split.
  - intros H c Hc Hb.
    assert (existsb (fun ch => contains [ch] l) box_chars = true) as E.
    { apply existsb_exists. exists c. split; [exact Hb|]. now apply contains_single. }
    congruence.
  - intros H. apply not_true_iff_false. intros E.
    apply existsb_exists in E as [c [Hb Hc]]. apply contains_single in Hc.
    exact (H c Hc Hb).
Qed.

Lemma strip_join (L : list pystr) :
  L <> [] -> Forall payload_line L ->
  exists L', strip (join_nl L) = join_nl L' /\ L' <> [] /\ Forall payload_line L'.
Proof.
  intros Hne Hall. destruct L as [|l1 L]; [congruence|].
  inversion Hall as [|? ? H1 HL]; subst.
  assert (Hl1 : lstrip l1 <> []) by (rewrite lstrip_nil_iff; apply H1).
  destruct L as [|l L].
  - exists [strip l1]. split; [reflexivity|]. split; [discriminate|].
    constructor; [|constructor]. now apply payload_line_rstrip, payload_line_lstrip.
  - destruct (exists_last (l := l :: L) ltac:(discriminate)) as [L0 [ln E]].
    rewrite E in *.
    assert (Hln : payload_line ln) by (rewrite Forall_forall in HL; apply HL, in_or_app; right; now left).
    assert (Hrn : rstrip ln <> []) by (rewrite rstrip_nil_iff; apply Hln).
    exists ((lstrip l1 :: L0) ++ [rstrip ln]).
    split; [|split; [destruct L0; discriminate|]].
    + unfold strip. rewrite join_cons by (destruct L0; discriminate).
      rewrite lstrip_app by exact Hl1.
      rewrite <- join_cons by (destruct L0; discriminate).
      change (lstrip l1 :: L0 ++ [ln]) with ((lstrip l1 :: L0) ++ [ln]).
      rewrite !join_snoc by discriminate.
      replace (join_nl (lstrip l1 :: L0) ++ NL :: ln)
        with ((join_nl (lstrip l1 :: L0) ++ [NL]) ++ ln) by (now rewrite <- app_assoc).
      rewrite rstrip_app by exact Hrn. now rewrite <- app_assoc.
    + apply Forall_app. split.
      * constructor; [now apply payload_line_lstrip|].
        rewrite Forall_forall in *. intros x Hx. apply HL, in_or_app. now left.
      * constructor; [now apply payload_line_rstrip|constructor].
Qed.

(** C10: every line of a non-empty payload extracted by the persistent
    orchestrator is non-blank and contains none of '╔', '╚', '║', '='; so
    a content line with '=' anywhere, or a blank content line, never reaches
    the payload. *)
Theorem C10_payload_lines (output l : pystr) :
  p_extract output <> [] ->
  In l (split_nl (p_extract output)) ->
  strip_nonempty l = true /\ has_box_char l = false.
Proof.
  unfold p_extract. intros Hne Hin.
  set (L := p_scan false (split_nl output)) in *.
  assert (HL : Forall payload_line L).
  { apply Forall_forall. intros x Hx. apply p_scan_sub in Hx as [Hx Hk].
    unfold p_keep in Hk. apply andb_true_iff in Hk as [Hk Hb].
    apply andb_true_iff in Hk as [_ Hs]. apply negb_true_iff in Hb.
    apply has_box_char_false in Hb. apply strip_nonempty_iff in Hs.
    split; [exact Hs|].
    pose proof (proj1 (Forall_forall _ _) (split_nl_no_nl output) x Hx) as Hn.
    rewrite Forall_forall in *. intros c Hc [Hc'|Hc']; [subst; contradiction|].
    exact (Hb c Hc Hc'). }
  destruct L as [|x L'] eqn:EL; [contradiction|].
  destruct (strip_join (x :: L') ltac:(discriminate) HL) as [L2 [E [Hne2 H2]]].
  rewrite E, split_join in Hin.
  - rewrite Forall_forall in H2. destruct (H2 l Hin) as [Hs Hc].
    split; [now apply strip_nonempty_iff|].
    apply has_box_char_false. eapply Forall_impl; [|exact Hc].
    intros c Hnot Hb. apply Hnot. now right.
  - exact Hne2.
  - eapply Forall_impl; [|exact H2]. intros y [_ Hy] Hn.
    rewrite Forall_forall in Hy. exact (Hy NL Hn (or_introl eq_refl)).
Qed.

Lemma C10_payload_lines_witness :
  let out := ZORK_OUTPUT ++ NL :: of_ascii "foo" ++ NL :: of_ascii "a = b" ++ NL :: NL
             :: of_ascii " bar " in
  p_extract out = of_ascii "foo" ++ NL :: of_ascii " bar"
  /\ strip_nonempty (of_ascii " bar") = true /\ has_box_char (of_ascii " bar") = false.
Proof.
  intros out. split; [vm_compute; reflexivity|].
  apply (C10_payload_lines out); vm_compute; [discriminate|].
  right. left. reflexivity.
Defined.

(** ** Release of the device handle (zork_persistent.py) *)

Definition is_close (e : event) : bool :=
  match e with ECloseDevice _ => true | _ => false end.

Definition count_close (l : list event) : nat := List.length (filter is_close l).

Definition keeps_closes {A} (m : M A) : Prop :=
  forall s, count_close (plog (snd (m s))) = count_close (plog s).

Lemma count_close_app (l1 l2 : list event) :
  count_close (l1 ++ l2) = (count_close l1 + count_close l2)%nat.
Proof. unfold count_close. now rewrite filter_app, List.length_app. Qed.

Lemma keeps_ret {A} (a : A) : keeps_closes (ret a).
Proof. intros s. reflexivity. Qed.

Lemma keeps_lift {A} (r : res A) : keeps_closes (lift r).
Proof. intros s. reflexivity. Qed.

Lemma keeps_emit (e : event) : is_close e = false -> keeps_closes (emit e).
Proof.
  intros He s. simpl. rewrite count_close_app. unfold count_close at 2.
  simpl. rewrite He. simpl. lia.
Qed.

Lemma keeps_bind {A B} (m : M A) (k : A -> M B) :
  keeps_closes m -> (forall a, keeps_closes (k a)) -> keeps_closes (bind m k).
Proof.
  intros Hm Hk s. unfold bind. specialize (Hm s).
  destruct (m s) as [[a|e] s1]; simpl in *; [now rewrite Hk|exact Hm].
Qed.

Lemma keeps_catch {A} (m : M A) : keeps_closes m -> keeps_closes (catch_exc m).
Proof.
  intros Hm s. unfold catch_exc. specialize (Hm s).
  destruct (m s) as [[a|[|]] s1]; exact Hm.
Qed.

Lemma keeps_call {A} (oracle : nat -> res A) : keeps_closes (call_engine oracle).
Proof.
  intros s. simpl. rewrite count_close_app. unfold count_close at 2. simpl. lia.
Qed.

Create HintDb closes.
#[local] Hint Resolve keeps_ret keeps_lift keeps_catch keeps_call : closes.
#[local] Hint Extern 1 (keeps_closes (emit _)) => apply keeps_emit; reflexivity : closes.

Ltac keeps_tac :=
  repeat first
    [ progress auto with closes
    | apply keeps_catch
    | apply keeps_bind; [|intros ?]
    | match goal with
      | |- keeps_closes (match ?x with _ => _ end) => destruct x
      end ].

Lemma keeps_batch_loop (max : nat) (exec : nat -> res pystr) (fuel batch : nat)
    (acc : pystr) :
  keeps_closes (Persistent.batch_loop max exec fuel batch acc).
Proof.
  revert batch acc. induction fuel as [|fuel IH]; intros batch acc; simpl;
    [apply keeps_ret|].
  destruct (Nat.leb batch max); keeps_tac.
Qed.
#[local] Hint Resolve keeps_batch_loop : closes.

Lemma keeps_session_body (max : nat) (d : Persistent.Device) :
  keeps_closes (Persistent.session_body max d).
Proof.
  unfold Persistent.session_body, Persistent.run_session, Persistent.resume,
    Persistent.finish. keeps_tac.
Qed.

Lemma main_acquired (max : nat) (d : Persistent.Device) (h : Z) :
  Persistent.game_file_exists d = true -> Persistent.init_device d = Ok h ->
  Persistent.main max d st0 =
  try_finally (Persistent.session_body max d) (Persistent.cleanup d h)
    {| plog := [EInitDevice]; ncalls := 0 |}.
Proof.
  intros Hg Hi. unfold Persistent.main. rewrite Hg. simpl negb. cbv iota.
  unfold bind at 1. unfold catch_exc at 1. unfold bind at 1.
  cbn [emit lift plog ncalls app]. rewrite Hi. reflexivity.
Qed.

Lemma cleanup_closes (d : Persistent.Device) (h : Z) (s : pstate) :
  count_close (plog (snd (Persistent.cleanup d h s))) = S (count_close (plog s))
  /\ In (ECloseDevice h) (plog (snd (Persistent.cleanup d h s))).
Proof.
  unfold Persistent.cleanup, bind, catch_exc, emit, lift. simpl.
  destruct (Persistent.close_device d) as [[]|[|]]; simpl;
    rewrite ?count_close_app; unfold count_close; simpl;
    rewrite ?List.length_app; simpl;
    (split; [fold (count_close (plog s)); lia|]);
    apply in_or_app; (left; apply in_or_app; right; now left) || (right; now left).
Qed.

Lemma try_finally_state {A} (m : M A) (fin : M unit) (s : pstate) :
  snd (try_finally m fin s) = snd (fin (snd (m s))).
Proof.
  unfold try_finally. destruct (m s) as [r s1]. simpl.
  now destruct (fin s1) as [[[]|e] s2].
Qed.

Lemma count_close_one (l : list event) (h h' : Z) :
  count_close l = 1%nat -> In (ECloseDevice h) l -> In (ECloseDevice h') l -> h' = h.
Proof.
  unfold count_close. intros Hc Hh Hh'.
  assert (Ih : In (ECloseDevice h) (filter is_close l)) by (now apply filter_In).
  assert (Ih' : In (ECloseDevice h') (filter is_close l)) by (now apply filter_In).
  destruct (filter is_close l) as [|x [|y r]]; simpl in Hc; try discriminate.
  destruct Ih as [E1|[]], Ih' as [E2|[]]. rewrite E1 in E2.
  injection E2 as E. now symmetry.
Qed.

(** C3: once [zork_tt.init_device()] has returned a handle [h], the session
    calls [close_device] exactly once, on [h], whatever happens afterwards:
    normal completion, a [load_game] failure, an exception from
    [execute_batch], a failing state resume, or a [KeyboardInterrupt]
    raised by any call of the session. *)
Theorem C3_release_exactly_once (max : nat) (d : Persistent.Device) (h : Z) :
  Persistent.game_file_exists d = true ->
  Persistent.init_device d = Ok h ->
  let final := plog (snd (Persistent.main max d st0)) in
  count_close final = 1%nat /\ In (ECloseDevice h) final
  /\ forall h', In (ECloseDevice h') final -> h' = h.
Proof.
  intros Hg Hi final.
  assert (Hc : count_close final = 1%nat /\ In (ECloseDevice h) final).
  { unfold final. rewrite (main_acquired max d h Hg Hi), try_finally_state.
    destruct (cleanup_closes d h (snd (Persistent.session_body max d
                {| plog := [EInitDevice]; ncalls := 0 |}))) as [H1 H2].
    split; [|exact H2]. rewrite H1, (keeps_session_body max d). reflexivity. }
  destruct Hc as [H1 H2]. split; [exact H1|]. split; [exact H2|].
  intros h' H'. exact (count_close_one final h h' H1 H2 H').
Qed.

(** A device whose third [execute_batch] raises: batches 1 and 2 print
    "foo" and "bar". *)
Definition fail3_device (exec3 : exc) : Persistent.Device := {|
  Persistent.game_file_exists := true;
  Persistent.init_device := Ok 7%Z;
  Persistent.load_game := Ok tt;
  Persistent.state_file_exists := false;
  Persistent.read_state_file := Ok [];
  Persistent.set_state := fun _ => Ok tt;
  Persistent.execute_batch := fun n =>
    match n with
    | 1%nat => Ok (ZORK_OUTPUT ++ NL :: of_ascii "foo")
    | 2%nat => Ok (ZORK_OUTPUT ++ NL :: of_ascii "bar")
    | _ => Raise exec3
    end;
  Persistent.get_state := Ok [];
  Persistent.write_state_file := fun _ => Ok tt;
  Persistent.close_device := Ok tt |}.

Lemma C3_release_exactly_once_witness :
  let final := plog (snd (Persistent.main 5%nat (fail3_device KeyboardInterrupt) st0)) in
  count_close final = 1%nat /\ In (ECloseDevice 7) final
  /\ forall h', In (ECloseDevice h') final -> h' = 7%Z.
Proof. apply C3_release_exactly_once; reflexivity. Defined.

(** ** Runs of the persistent batch loop *)

Definition res_text (r : res pystr) : pystr :=
  match r with Ok o => p_extract o | Raise _ => [] end.

(** Output accumulated by the batches [n+1 .. n+j]. *)
Fixpoint accum (exec : nat -> res pystr) (n j : nat) (acc : pystr) : pystr :=
  match j with
  | O => acc
  | S j' => accum exec (S n) j' (add_text acc (res_text (exec (S n))))
  end.

Section Loop.
Variable max : nat.
Variable exec : nat -> res pystr.

Lemma loop_continue (f : nat) (acc : pystr) (st : pstate) (o : pystr) :
  exec (S (ncalls st)) = Ok o -> contains GAME_COMPLETE o = false ->
  (S (S (ncalls st)) <= max)%nat ->
  Persistent.batch_loop max exec (S f) (S (ncalls st)) acc st
  = Persistent.batch_loop max exec f (S (S (ncalls st))) (add_text acc (p_extract o))
      {| plog := plog st ++ [EExec (S (ncalls st))]; ncalls := S (ncalls st) |}.
Proof.
  intros Ho Hg Hle. cbn [Persistent.batch_loop].
  replace (Nat.leb (S (ncalls st)) max) with true by (symmetry; apply Nat.leb_le; lia).
  unfold bind, catch_exc, call_engine. rewrite Ho. cbn [p_frame]. rewrite Hg.
  replace (Nat.ltb max (S (S (ncalls st)))) with false by (symmetry; apply Nat.ltb_ge; lia).
  reflexivity.
Qed.

Lemma loop_stop (f : nat) (acc : pystr) (st : pstate) (o : pystr) :
  exec (S (ncalls st)) = Ok o ->
  (contains GAME_COMPLETE o = true \/ (max < S (S (ncalls st)))%nat) ->
  (S (ncalls st) <= max)%nat ->
  Persistent.batch_loop max exec (S f) (S (ncalls st)) acc st
  = (Ok (add_text acc (p_extract o), S (S (ncalls st))),
     {| plog := (plog st ++ [EExec (S (ncalls st))]) ++ [EFinished (S (ncalls st))];
        ncalls := S (ncalls st) |}).
Proof.
  intros Ho Hfin Hle. cbn [Persistent.batch_loop].
  replace (Nat.leb (S (ncalls st)) max) with true by (symmetry; apply Nat.leb_le; lia).
  unfold bind, catch_exc, call_engine. rewrite Ho. cbn [p_frame].
  replace (contains GAME_COMPLETE o || Nat.ltb max (S (S (ncalls st)))) with true.
  - reflexivity.
  - destruct Hfin as [H|H]; [now rewrite H|].
    symmetry. apply orb_true_iff. right. now apply Nat.ltb_lt.
Qed.

Lemma loop_fail (f : nat) (acc : pystr) (st : pstate) :
  exec (S (ncalls st)) = Raise Exception -> (S (ncalls st) <= max)%nat ->
  Persistent.batch_loop max exec (S f) (S (ncalls st)) acc st
  = (Ok (acc, S (ncalls st)),
     {| plog := (plog st ++ [EExec (S (ncalls st))]) ++ [EBatchFailed];
        ncalls := S (ncalls st) |}).
Proof.
  intros Ho Hle. cbn [Persistent.batch_loop].
  replace (Nat.leb (S (ncalls st)) max) with true by (symmetry; apply Nat.leb_le; lia).
  unfold bind, catch_exc, call_engine. now rewrite Ho.
Qed.

Lemma loop_run (j : nat) : forall (f : nat) (acc : pystr) (st : pstate),
  (forall i, (1 <= i <= j)%nat ->
     exists o, exec (ncalls st + i) = Ok o /\ contains GAME_COMPLETE o = false) ->
  (ncalls st + j < max)%nat ->
  Persistent.batch_loop max exec (j + f) (S (ncalls st)) acc st
  = Persistent.batch_loop max exec f (S (ncalls st + j)) (accum exec (ncalls st) j acc)
      {| plog := plog st ++ map EExec (seq (S (ncalls st)) j); ncalls := ncalls st + j |}.
Proof.
  induction j as [|j IH]; intros f acc [l n] Hok Hlt; cbn [plog ncalls] in *.
  - now rewrite app_nil_r, Nat.add_0_r.
  - destruct (Hok 1%nat ltac:(lia)) as [o [Ho Hg]].
    rewrite Nat.add_1_r in Ho.
    change (S j + f)%nat with (S (j + f)).
    pose proof (loop_continue (j + f) acc {| plog := l; ncalls := n |} o Ho Hg
                  ltac:(cbn; lia)) as E.
    cbn [plog ncalls] in E. rewrite E.
    pose proof (IH f (add_text acc (p_extract o))
                  {| plog := l ++ [EExec (S n)]; ncalls := S n |}) as E2.
    cbn [plog ncalls] in E2. rewrite E2.
    + replace (S n + j)%nat with (n + S j)%nat by lia.
      cbn [accum]. rewrite Ho. cbn [res_text].
      rewrite <- app_assoc. reflexivity.
    + intros i Hi. destruct (Hok (S i) ltac:(lia)) as [o' [Ho' Hg']].
      exists o'. split; [|exact Hg']. now replace (S n + i)%nat with (n + S i)%nat by lia.
    + lia.
Qed.

End Loop.

Lemma try_finally_ext {A} (m1 m2 : M A) (fin : M unit) (s1 s2 : pstate) :
  m1 s1 = m2 s2 -> try_finally m1 fin s1 = try_finally m2 fin s2.
Proof. intros E. unfold try_finally. now rewrite E. Qed.

Lemma resume_fresh (d : Persistent.Device) (s : pstate) :
  Persistent.state_file_exists d = false ->
  Persistent.resume d s = (Ok tt, {| plog := plog s ++ [EFresh]; ncalls := ncalls s |}).
Proof. intros H. unfold Persistent.resume. now rewrite H. Qed.

Lemma resume_state (d : Persistent.Device) (s : pstate) (b : list Byte.byte) :
  Persistent.state_file_exists d = true ->
  Persistent.read_state_file d = Ok b -> Persistent.set_state d b = Ok tt ->
  Persistent.resume d s
  = (Ok tt, {| plog := ((plog s ++ [EReadState]) ++ [ESetState b]) ++ [EResumed];
               ncalls := ncalls s |}).
Proof.
  intros He Hr Hs. unfold Persistent.resume. rewrite He.
  unfold bind, emit, lift. cbn [plog ncalls]. now rewrite Hr, Hs.
Qed.

(** Once the device is open, the game loaded and the state resumed, the
    session is the batch loop followed by [finish], under [finally]. *)
Lemma main_run (max : nat) (d : Persistent.Device) (h : Z) (s2 : pstate) :
  Persistent.game_file_exists d = true -> Persistent.init_device d = Ok h ->
  Persistent.load_game d = Ok tt ->
  Persistent.resume d {| plog := [EInitDevice; ELoadGame]; ncalls := 0 |} = (Ok tt, s2) ->
  Persistent.main max d st0
  = try_finally
      (' (acc, batch) <- Persistent.batch_loop max (Persistent.execute_batch d) max 1 [] ;;
       Persistent.finish d acc batch)
      (Persistent.cleanup d h) s2.
Proof.
  intros Hg Hi Hl Hr. rewrite (main_acquired max d h Hg Hi).
  apply try_finally_ext. unfold Persistent.session_body.
  unfold bind at 1. unfold catch_exc at 1. unfold bind at 1.
  cbn [emit lift plog ncalls app]. rewrite Hl.
  unfold Persistent.run_session. unfold bind at 1. now rewrite Hr.
Qed.

Lemma finish_calls (d : Persistent.Device) (acc : pystr) (b : nat) (s : pstate) :
  ncalls (snd (Persistent.finish d acc b s)) = ncalls s.
Proof.
  unfold Persistent.finish, bind, catch_exc, emit, lift, ret.
  destruct (Persistent.get_state d) as [x|[|]]; cbn;
    try destruct (Persistent.write_state_file d x) as [[]|[|]]; reflexivity.
Qed.

Lemma cleanup_calls (d : Persistent.Device) (h : Z) (s : pstate) :
  ncalls (snd (Persistent.cleanup d h s)) = ncalls s.
Proof.
  unfold Persistent.cleanup, bind, catch_exc, emit, lift, ret.
  destruct (Persistent.close_device d) as [[]|[|]]; reflexivity.
Qed.

(** The batch loop of zork_persistent.py stops right after the first batch
    whose output contains "Game complete". *)
Lemma persistent_stops_at (max : nat) (exec : nat -> res pystr) (k : nat) (s : pstate) :
  ncalls s = 0%nat -> (1 <= k <= max)%nat ->
  (forall i, (1 <= i < k)%nat -> exists o, exec i = Ok o /\ contains GAME_COMPLETE o = false) ->
  (exists o, exec k = Ok o /\ contains GAME_COMPLETE o = true) ->
  exists acc s', Persistent.batch_loop max exec max 1 [] s = (Ok (acc, S k), s')
                 /\ ncalls s' = k.
Proof.
  intros H0 Hk Hpre [o [Ho Hg]]. destruct s as [l n]; cbn [ncalls] in H0; subst n.
  assert (E1 : Persistent.batch_loop max exec max 1 [] {| plog := l; ncalls := 0 |}
               = Persistent.batch_loop max exec (k - 1 + S (max - k)) (S 0) []
                   {| plog := l; ncalls := 0 |}) by (f_equal; lia).
  pose proof (loop_run max exec (k - 1) (S (max - k)) [] {| plog := l; ncalls := 0 |}
                ltac:(intros i Hi; apply Hpre; cbn; lia) ltac:(cbn; lia)) as E2.
  cbn [plog ncalls] in E2. rewrite E1, E2.
  set (s1 := {| plog := l ++ map EExec (seq 1 (k - 1)); ncalls := (0 + (k - 1))%nat |}).
  replace (S (0 + (k - 1))) with (S (ncalls s1)) by reflexivity.
  rewrite (loop_stop max exec (max - k) _ s1 o).
  - replace (S (S (ncalls s1))) with (S k) by (cbn; lia).
    do 2 eexists; split; [reflexivity|cbn; lia].
  - cbn. now replace (S (k - 1)) with k by lia.
  - now left.
  - cbn. lia.
Qed.

(** The state resume of zork_persistent.py does not raise. *)
Definition resume_ok (d : Persistent.Device) : bool :=
  negb (Persistent.state_file_exists d)
  || match Persistent.read_state_file d with
     | Ok b => match Persistent.set_state d b with Ok _ => true | Raise _ => false end
     | Raise _ => false
     end.

Lemma resume_ok_spec (d : Persistent.Device) (s : pstate) :
  resume_ok d = true ->
  exists l, Persistent.resume d s = (Ok tt, {| plog := plog s ++ l; ncalls := ncalls s |}).
Proof.
  unfold resume_ok. destruct (Persistent.state_file_exists d) eqn:He; cbn [negb orb].
  - destruct (Persistent.read_state_file d) as [b|e] eqn:Hr; [|discriminate].
    destruct (Persistent.set_state d b) as [[]|e] eqn:Hs; [|discriminate].
    intros _. rewrite (resume_state d s b He Hr Hs).
    exists [EReadState; ESetState b; EResumed]. now rewrite <- !app_assoc.
  - intros _. exists [EFresh]. now apply resume_fresh.
Qed.

(** Number of engine calls of a whole persistent session that reaches the
    loop. *)
Lemma persistent_main_calls (max : nat) (d : Persistent.Device) (h : Z) (k : nat) :
  Persistent.game_file_exists d = true -> Persistent.init_device d = Ok h ->
  Persistent.load_game d = Ok tt -> resume_ok d = true ->
  (forall s, ncalls s = 0%nat -> exists r s',
      Persistent.batch_loop max (Persistent.execute_batch d) max 1 [] s = (r, s')
      /\ ncalls s' = k) ->
  ncalls (snd (Persistent.main max d st0)) = k.
Proof.
  intros Hg Hi Hl Hr Hloop.
  destruct (resume_ok_spec d {| plog := [EInitDevice; ELoadGame]; ncalls := 0 |} Hr)
    as [l E]. cbn [plog ncalls] in E.
  rewrite (main_run max d h _ Hg Hi Hl E), try_finally_state, cleanup_calls.
  destruct (Hloop {| plog := [EInitDevice; ELoadGame] ++ l; ncalls := 0 |} eq_refl)
    as [r [s' [E2 Hc]]].
  unfold bind. rewrite E2. destruct r as [[acc b]|e]; [|exact Hc].
  now rewrite finish_calls.
Qed.

Section SubLoop.
Variable max : nat.
Variable r : Subprocess.Runner.

Lemma sub_step (f : nat) (acc : pystr) (st : pstate) (rc : Z) (o : pystr) :
  Subprocess.run_subprocess r (S (ncalls st)) = Ok (rc, o) ->
  (S (ncalls st) <= max)%nat ->
  exists l',
    Subprocess.batch_loop max r (S f) (S (ncalls st)) acc st
    = if snd (Subprocess.batch_result max (S (ncalls st)) rc o)
      then (Ok (add_text acc (fst (Subprocess.batch_result max (S (ncalls st)) rc o)),
                S (ncalls st)),
            {| plog := l' ++ [EFinished (S (ncalls st))]; ncalls := S (ncalls st) |})
      else Subprocess.batch_loop max r f (S (S (ncalls st)))
             (add_text acc (fst (Subprocess.batch_result max (S (ncalls st)) rc o)))
             {| plog := l'; ncalls := S (ncalls st) |}.
Proof.
  intros Ho Hle. cbn [Subprocess.batch_loop].
  replace (Nat.leb (S (ncalls st)) max) with true by (symmetry; apply Nat.leb_le; lia).
  unfold Subprocess.run_zork_batch, bind, call_engine. rewrite Ho.
  destruct (negb (rc =? 0)%Z);
    [exists ((plog st ++ [EExec (S (ncalls st))]) ++ [EBatchError (S (ncalls st))])
    |exists (plog st ++ [EExec (S (ncalls st))])];
    cbn [emit ret plog ncalls];
    destruct (Subprocess.batch_result max (S (ncalls st)) rc o) as [out []];
    reflexivity.
Qed.

Lemma sub_run (j : nat) : forall (f : nat) (acc : pystr) (st : pstate),
  (forall i, (1 <= i <= j)%nat ->
     exists rc o, Subprocess.run_subprocess r (ncalls st + i) = Ok (rc, o)
                  /\ snd (Subprocess.batch_result max (ncalls st + i) rc o) = false) ->
  (ncalls st + j < max)%nat ->
  exists acc' l',
    Subprocess.batch_loop max r (j + f) (S (ncalls st)) acc st
    = Subprocess.batch_loop max r f (S (ncalls st + j)) acc'
        {| plog := l'; ncalls := ncalls st + j |}.
Proof.
  induction j as [|j IH]; intros f acc [l n] Hok Hlt; cbn [plog ncalls] in *.
  - exists acc, l. now rewrite Nat.add_0_r.
  - destruct (Hok 1%nat ltac:(lia)) as [rc [o [Ho Hf]]].
    rewrite Nat.add_1_r in Ho, Hf.
    change (S j + f)%nat with (S (j + f)).
    destruct (sub_step (j + f) acc {| plog := l; ncalls := n |} rc o Ho ltac:(cbn; lia))
      as [l' E].
    cbn [ncalls] in E. rewrite Hf in E. rewrite E.
    destruct (IH f (add_text acc (fst (Subprocess.batch_result max (S n) rc o)))
                {| plog := l'; ncalls := S n |}) as [acc' [l'' E2]].
    + intros i Hi. destruct (Hok (S i) ltac:(lia)) as [rc' [o' [H1 H2]]].
      exists rc', o'. cbn [ncalls].
      now replace (S n + i)%nat with (n + S i)%nat by lia.
    + cbn. lia.
    + cbn [ncalls] in E2. rewrite E2. exists acc', l''.
      now replace (S n + j)%nat with (n + S j)%nat by lia.
Qed.

End SubLoop.

Lemma subprocess_stops_at (max : nat) (r : Subprocess.Runner) (k : nat) (s : pstate) :
  ncalls s = 0%nat -> (1 <= k <= max)%nat ->
  (forall i, (1 <= i < k)%nat ->
     exists o, Subprocess.run_subprocess r i = Ok (0%Z, o)
               /\ contains GAME_COMPLETE o = false) ->
  (exists o, Subprocess.run_subprocess r k = Ok (0%Z, o)
             /\ contains GAME_COMPLETE o = true) ->
  exists acc s', Subprocess.batch_loop max r max 1 [] s = (Ok (acc, k), s')
                 /\ ncalls s' = k.
Proof.
  intros H0 Hk Hpre [o [Ho Hg]]. destruct s as [l n]; cbn [ncalls] in H0; subst n.
  assert (E1 : Subprocess.batch_loop max r max 1 [] {| plog := l; ncalls := 0 |}
               = Subprocess.batch_loop max r (k - 1 + S (max - k)) (S 0) []
                   {| plog := l; ncalls := 0 |}) by (f_equal; lia).
  destruct (sub_run max r (k - 1) (S (max - k)) [] {| plog := l; ncalls := 0 |})
    as [acc' [l' E2]].
  - intros i Hi. cbn [ncalls]. destruct (Hpre i ltac:(lia)) as [o' [H1 H2]].
    exists 0%Z, o'. split; [exact H1|].
    unfold Subprocess.batch_result. cbn [Z.eqb negb snd fst Nat.add]. rewrite H2.
    cbn [orb]. apply Nat.leb_gt. lia.
  - cbn. lia.
  - cbn [ncalls] in E2. rewrite E1, E2.
    destruct (sub_step max r (max - k) acc' {| plog := l'; ncalls := 0 + (k - 1) |}
                0%Z o ltac:(cbn; now replace (S (k - 1)) with k by lia) ltac:(cbn; lia))
      as [l'' E3].
    cbn [ncalls] in E3. replace (S (0 + (k - 1))) with k in * by lia.
    rewrite E3. unfold Subprocess.batch_result. cbn [Z.eqb negb snd fst].
    rewrite Hg. cbn [orb].
    do 2 eexists. split; [reflexivity|reflexivity].
Qed.

(** Subprocess session from the start of the [try:] block of lines 155-180. *)
Lemma sub_main_run (max : nat) (r : Subprocess.Runner) :
  Subprocess.exe_exists r = true -> Subprocess.game_exists r = true ->
  (Subprocess.state_exists r = false \/ Subprocess.unlink_state r = Ok tt) ->
  exists l, Subprocess.main max r st0
            = catch_interrupt (Subprocess.session max r) (emit EInterrupted ;;; ret 130%Z)
                {| plog := l; ncalls := 0 |}.
Proof.
  intros He Hg Hu. unfold Subprocess.main. rewrite He, Hg. cbn [negb].
  destruct (Subprocess.state_exists r) eqn:Hs.
  - destruct Hu as [Hu|Hu]; [discriminate|].
    exists [EUnlinkState]. unfold bind at 1. cbn [emit lift plog ncalls app].
    unfold bind at 1. now rewrite Hu.
  - exists []. reflexivity.
Qed.

Lemma sub_session_calls (max : nat) (r : Subprocess.Runner) (s : pstate) (k : nat) :
  (exists acc b s', Subprocess.batch_loop max r max 1 [] s = (Ok (acc, b), s')
                    /\ ncalls s' = k) ->
  ncalls (snd (catch_interrupt (Subprocess.session max r)
                 (emit EInterrupted ;;; ret 130%Z) s)) = k.
Proof.
  intros (acc & b & s' & E & Hc). unfold catch_interrupt, Subprocess.session, bind.
  rewrite E. exact Hc.
Qed.

(** C5: when the k-th engine output (k <= MAX_BATCHES) is the first to
    contain "Game complete", the session makes exactly k engine calls:
    [execute_batch] calls in zork_persistent.py, runs of the executable in
    zork_python.py. *)
Theorem C5_exactly_k_batches :
  (forall (max : nat) (d : Persistent.Device) (h : Z) (k : nat),
    Persistent.game_file_exists d = true -> Persistent.init_device d = Ok h ->
    Persistent.load_game d = Ok tt -> resume_ok d = true ->
    (1 <= k <= max)%nat ->
    (forall i, (1 <= i < k)%nat ->
       exists o, Persistent.execute_batch d i = Ok o /\ contains GAME_COMPLETE o = false) ->
    (exists o, Persistent.execute_batch d k = Ok o /\ contains GAME_COMPLETE o = true) ->
    ncalls (snd (Persistent.main max d st0)) = k)
  /\
  (forall (max : nat) (r : Subprocess.Runner) (k : nat),
    Subprocess.exe_exists r = true -> Subprocess.game_exists r = true ->
    (Subprocess.state_exists r = false \/ Subprocess.unlink_state r = Ok tt) ->
    (1 <= k <= max)%nat ->
    (forall i, (1 <= i < k)%nat ->
       exists o, Subprocess.run_subprocess r i = Ok (0%Z, o)
                 /\ contains GAME_COMPLETE o = false) ->
    (exists o, Subprocess.run_subprocess r k = Ok (0%Z, o)
               /\ contains GAME_COMPLETE o = true) ->
    ncalls (snd (Subprocess.main max r st0)) = k).
Proof.
  split.
  - intros max d h k Hg Hi Hl Hr Hk Hpre Hk'.
    apply (persistent_main_calls max d h k Hg Hi Hl Hr).
    intros s Hs. destruct (persistent_stops_at max _ k s Hs Hk Hpre Hk')
      as [acc [s' [E Hc]]].
    exists (Ok (acc, S k)), s'. now split.
  - intros max r k He Hg Hu Hk Hpre Hk'.
    destruct (sub_main_run max r He Hg Hu) as [l E]. rewrite E.
    apply sub_session_calls.
    destruct (subprocess_stops_at max r k {| plog := l; ncalls := 0 |} eq_refl Hk Hpre Hk')
      as [acc [s' [E2 Hc]]].
    now exists acc, k, s'.
Qed.

(** Engines that signal the end of the game on their second call. *)
Definition term2_device : Persistent.Device := {|
  Persistent.game_file_exists := true;
  Persistent.init_device := Ok 7%Z;
  Persistent.load_game := Ok tt;
  Persistent.state_file_exists := false;
  Persistent.read_state_file := Ok [];
  Persistent.set_state := fun _ => Ok tt;
  Persistent.execute_batch := fun n =>
    match n with
    | 1%nat => Ok (ZORK_OUTPUT ++ NL :: of_ascii "West of House")
    | 2%nat => Ok GAME_COMPLETE
    | _ => Ok []
    end;
  Persistent.get_state := Ok [];
  Persistent.write_state_file := fun _ => Ok tt;
  Persistent.close_device := Ok tt |}.

Definition term2_runner : Subprocess.Runner := {|
  Subprocess.exe_exists := true;
  Subprocess.game_exists := true;
  Subprocess.state_exists := false;
  Subprocess.unlink_state := Ok tt;
  Subprocess.run_subprocess := fun n =>
    match n with
    | 1%nat => Ok (0%Z, ACC_MARKER ++ NL :: of_ascii "West of House")
    | 2%nat => Ok (0%Z, GAME_COMPLETE)
    | _ => Ok (0%Z, [])
    end |}.

Lemma C5_exactly_k_batches_witness :
  ncalls (snd (Persistent.main 3%nat term2_device st0)) = 2%nat
  /\ ncalls (snd (Subprocess.main 3%nat term2_runner st0)) = 2%nat.
Proof.
  split.
  - apply (proj1 C5_exactly_k_batches 3%nat term2_device 7%Z 2%nat); try reflexivity; try lia.
    + intros i Hi. assert (i = 1%nat) by lia. subst i.
      eexists. split; [reflexivity|vm_compute; reflexivity].
    + eexists. split; [reflexivity|vm_compute; reflexivity].
  - apply (proj2 C5_exactly_k_batches 3%nat term2_runner 2%nat); try reflexivity; try lia.
    + now left.
    + intros i Hi. assert (i = 1%nat) by lia. subst i.
      eexists. split; [reflexivity|vm_compute; reflexivity].
    + eexists. split; [reflexivity|vm_compute; reflexivity].
Defined.

(** ** Failures inside and after the persistent loop *)

(** Saving the state fails with an ordinary exception. *)
Definition save_fails (d : Persistent.Device) : Prop :=
  Persistent.get_state d = Raise Exception
  \/ exists b, Persistent.get_state d = Ok b
               /\ Persistent.write_state_file d b = Raise Exception.

(** No [KeyboardInterrupt] arrives while the state is saved or the device
    closed. *)
Definition quiet_end (d : Persistent.Device) : Prop :=
  Persistent.get_state d <> Raise KeyboardInterrupt
  /\ (forall b, Persistent.write_state_file d b <> Raise KeyboardInterrupt)
  /\ Persistent.close_device d <> Raise KeyboardInterrupt.

Lemma finish_ok (d : Persistent.Device) (acc : pystr) (b : nat) (s : pstate) :
  quiet_end d ->
  exists l, Persistent.finish d acc b s
            = (Ok 0%Z, {| plog := plog s ++ l ++ [EDisplay acc; ESuccess (b - 1)];
                          ncalls := ncalls s |})
            /\ (save_fails d -> In ESaveFailed l).
Proof.
  intros [Hg [Hw _]]. unfold Persistent.finish, bind, catch_exc, emit, lift, ret.
  destruct (Persistent.get_state d) as [x|[|]] eqn:E; cbn [plog ncalls].
  - specialize (Hw x).
    destruct (Persistent.write_state_file d x) as [[]|[|]] eqn:W; [| |congruence].
    + exists [EGetState; EWriteState x; EStateSaved]. split.
      * cbn [plog ncalls]; now rewrite <- !app_assoc.
      * intros [H|[b' [H1 H2]]]; congruence.
    + exists [EGetState; EWriteState x; ESaveFailed]. split.
      * cbn [plog ncalls]; now rewrite <- !app_assoc.
      * intros _. right. right. now left.
  - exists [EGetState; ESaveFailed]. split.
    + cbn [plog ncalls]; now rewrite <- !app_assoc.
    + intros _. right. now left.
  - congruence.
Qed.

Lemma cleanup_ok (d : Persistent.Device) (h : Z) (s : pstate) :
  Persistent.close_device d <> Raise KeyboardInterrupt ->
  exists l, Persistent.cleanup d h s
            = (Ok tt, {| plog := plog s ++ l; ncalls := ncalls s |}).
Proof.
  intros Hc. unfold Persistent.cleanup, bind, catch_exc, emit, lift, ret.
  destruct (Persistent.close_device d) as [[]|[|]]; cbn [plog ncalls]; [| |congruence].
  - exists [ECloseDevice h]. reflexivity.
  - exists [ECloseDevice h; ECloseFailed]. now rewrite <- app_assoc.
Qed.

(** A persistent session whose loop exits normally ends with status 0,
    having displayed the accumulated output. *)
Lemma persistent_main_ok (max : nat) (d : Persistent.Device) (h : Z) (acc : pystr)
    (b : nat) (P : pstate -> Prop) :
  Persistent.game_file_exists d = true -> Persistent.init_device d = Ok h ->
  Persistent.load_game d = Ok tt -> resume_ok d = true -> quiet_end d ->
  (forall s, ncalls s = 0%nat -> exists s',
      Persistent.batch_loop max (Persistent.execute_batch d) max 1 [] s = (Ok (acc, b), s')
      /\ P s') ->
  exists s' l, P s'
    /\ Persistent.main max d st0 = (Ok 0%Z, {| plog := plog s' ++ l; ncalls := ncalls s' |})
    /\ In (EDisplay acc) l /\ In (ESuccess (b - 1)) l
    /\ (save_fails d -> In ESaveFailed l).
Proof.
  intros Hg Hi Hl Hr Hq Hloop.
  destruct (resume_ok_spec d {| plog := [EInitDevice; ELoadGame]; ncalls := 0 |} Hr)
    as [l0 E]. cbn [plog ncalls] in E.
  rewrite (main_run max d h _ Hg Hi Hl E).
  destruct (Hloop {| plog := [EInitDevice; ELoadGame] ++ l0; ncalls := 0 |} eq_refl)
    as [s' [E2 HP]].
  destruct (finish_ok d acc b s' Hq) as [l1 [E3 Hs]].
  destruct Hq as (_ & _ & Hc).
  destruct (cleanup_ok d h {| plog := plog s' ++ l1 ++ [EDisplay acc; ESuccess (b - 1)];
                              ncalls := ncalls s' |} Hc) as [l2 E4].
  exists s', ((l1 ++ [EDisplay acc; ESuccess (b - 1)]) ++ l2).
  split; [exact HP|]. split.
  - unfold try_finally, bind. rewrite E2, E3, E4. cbn [plog ncalls].
    now rewrite <- !app_assoc.
  - split; [apply in_or_app; left; apply in_or_app; right; now left|].
    split; [apply in_or_app; left; apply in_or_app; right; right; now left|].
    intros Hf. apply in_or_app. left. apply in_or_app. left. now apply Hs.
Qed.

Lemma persistent_fails_at (max : nat) (exec : nat -> res pystr) (j : nat) (s : pstate) :
  ncalls s = 0%nat -> (1 <= j <= max)%nat ->
  (forall i, (1 <= i < j)%nat -> exists o, exec i = Ok o /\ contains GAME_COMPLETE o = false) ->
  exec j = Raise Exception ->
  exists s', Persistent.batch_loop max exec max 1 [] s = (Ok (accum exec 0 (j - 1) [], j), s')
             /\ ncalls s' = j /\ In EBatchFailed (plog s').
Proof.
  intros H0 Hj Hpre Hf. destruct s as [l n]; cbn [ncalls] in H0; subst n.
  assert (E1 : Persistent.batch_loop max exec max 1 [] {| plog := l; ncalls := 0 |}
               = Persistent.batch_loop max exec (j - 1 + S (max - j)) (S 0) []
                   {| plog := l; ncalls := 0 |}) by (f_equal; lia).
  pose proof (loop_run max exec (j - 1) (S (max - j)) [] {| plog := l; ncalls := 0 |}
                ltac:(intros i Hi; apply Hpre; cbn; lia) ltac:(cbn; lia)) as E2.
  cbn [plog ncalls] in E2. rewrite E1, E2.
  set (s1 := {| plog := l ++ map EExec (seq 1 (j - 1)); ncalls := (0 + (j - 1))%nat |}).
  replace (S (0 + (j - 1))) with (S (ncalls s1)) by reflexivity.
  rewrite (loop_fail max exec (max - j) _ s1).
  - replace (S (ncalls s1)) with j by (cbn; lia).
    eexists. split; [reflexivity|]. cbn. split; [lia|].
    apply in_or_app. right. now left.
  - cbn. now replace (S (j - 1)) with j by lia.
  - cbn. lia.
Qed.

Lemma sub_failed_continues (max : nat) (r : Subprocess.Runner) (f : nat) (acc : pystr)
    (st : pstate) (rc : Z) (o : pystr) :
  (S (ncalls st) <= max)%nat ->
  Subprocess.run_subprocess r (S (ncalls st)) = Ok (rc, o) -> rc <> 0%Z ->
  Subprocess.run_zork_batch max r (S (ncalls st)) st
  = (Ok ([], false),
     {| plog := plog st ++ [EExec (S (ncalls st)); EBatchError (S (ncalls st))];
        ncalls := S (ncalls st) |})
  /\ Subprocess.batch_loop max r (S f) (S (ncalls st)) acc st
     = Subprocess.batch_loop max r f (S (S (ncalls st))) acc
         {| plog := plog st ++ [EExec (S (ncalls st)); EBatchError (S (ncalls st))];
            ncalls := S (ncalls st) |}.
Proof.
  intros Hle Ho Hrc.
  assert (E : Subprocess.run_zork_batch max r (S (ncalls st)) st
    = (Ok ([], false),
       {| plog := plog st ++ [EExec (S (ncalls st)); EBatchError (S (ncalls st))];
          ncalls := S (ncalls st) |})).
  { unfold Subprocess.run_zork_batch, Subprocess.batch_result, bind, call_engine.
    rewrite Ho. replace (rc =? 0)%Z with false by (symmetry; now apply Z.eqb_neq).
    cbn [negb emit ret plog ncalls]. now rewrite <- app_assoc. }
  split; [exact E|].
  cbn [Subprocess.batch_loop].
  replace (Nat.leb (S (ncalls st)) max) with true by (symmetry; apply Nat.leb_le; lia).
  unfold bind at 1. rewrite E. reflexivity.
Qed.

(** C2: in zork_persistent.py an exception from [execute_batch] at batch j
    ends the loop there (exactly j calls, "Failed" recorded), the output
    accumulated by the batches before j is displayed, the SUCCESS line
    ("Completed j-1 batches") is printed and [main] returns 0.  In
    zork_python.py a batch whose process exits with a non-zero status is
    reported ("[ERROR] Batch n failed"), [run_zork_batch] returns
    [("", False)], and the loop goes on with the next batch, its
    accumulated output unchanged. *)
Theorem C2_batch_failure :
  (forall (max : nat) (d : Persistent.Device) (h : Z) (j : nat),
    Persistent.game_file_exists d = true -> Persistent.init_device d = Ok h ->
    Persistent.load_game d = Ok tt -> resume_ok d = true -> quiet_end d ->
    (1 <= j <= max)%nat ->
    (forall i, (1 <= i < j)%nat ->
       exists o, Persistent.execute_batch d i = Ok o /\ contains GAME_COMPLETE o = false) ->
    Persistent.execute_batch d j = Raise Exception ->
    exists s' l, ncalls s' = j /\ In EBatchFailed (plog s')
      /\ Persistent.main max d st0 = (Ok 0%Z, {| plog := plog s' ++ l; ncalls := j |})
      /\ In (EDisplay (accum (Persistent.execute_batch d) 0 (j - 1) [])) l
      /\ In (ESuccess (j - 1)) l)
  /\
  (forall (max : nat) (r : Subprocess.Runner) (f : nat) (acc : pystr) (st : pstate)
          (rc : Z) (o : pystr),
    (S (ncalls st) <= max)%nat ->
    Subprocess.run_subprocess r (S (ncalls st)) = Ok (rc, o) -> rc <> 0%Z ->
    Subprocess.run_zork_batch max r (S (ncalls st)) st
    = (Ok ([], false),
       {| plog := plog st ++ [EExec (S (ncalls st)); EBatchError (S (ncalls st))];
          ncalls := S (ncalls st) |})
    /\ Subprocess.batch_loop max r (S f) (S (ncalls st)) acc st
       = Subprocess.batch_loop max r f (S (S (ncalls st))) acc
           {| plog := plog st ++ [EExec (S (ncalls st)); EBatchError (S (ncalls st))];
              ncalls := S (ncalls st) |}).
Proof.
  split; [|exact sub_failed_continues].
  intros max d h j Hg Hi Hl Hr Hq Hj Hpre Hf.
  destruct (persistent_main_ok max d h (accum (Persistent.execute_batch d) 0 (j - 1) []) j
              (fun s' => ncalls s' = j /\ In EBatchFailed (plog s')) Hg Hi Hl Hr Hq)
    as (s' & l & [Hc Hb] & E & Hd & Hs & _).
  - intros s Hs. destruct (persistent_fails_at max _ j s Hs Hj Hpre Hf)
      as (s' & E & Hc & Hb). now exists s'.
  - exists s', l. rewrite Hc in E. auto.
Qed.

Section Examples_C2.
Local Open Scope nat_scope.

Definition fail1_runner : Subprocess.Runner := {|
  Subprocess.exe_exists := true;
  Subprocess.game_exists := true;
  Subprocess.state_exists := false;
  Subprocess.unlink_state := Ok tt;
  Subprocess.run_subprocess := fun n =>
    match n with
    | 1 => Ok (1%Z, [])
    | 2 => Ok (0%Z, GAME_COMPLETE)
    | _ => Ok (0%Z, [])
    end |}.

Lemma C2_batch_failure_witness :
  (exists s' l, ncalls s' = 3 /\ In EBatchFailed (plog s')
     /\ Persistent.main 5 (fail3_device Exception) st0
        = (Ok 0%Z, {| plog := plog s' ++ l; ncalls := 3 |})
     /\ In (EDisplay (accum (Persistent.execute_batch (fail3_device Exception)) 0 2 [])) l
     /\ In (ESuccess 2) l)
  /\ Subprocess.run_zork_batch 5 fail1_runner 1 st0
     = (Ok ([], false), {| plog := [EExec 1; EBatchError 1]; ncalls := 1 |})
  /\ Subprocess.batch_loop 5 fail1_runner 3 1 [] st0
     = Subprocess.batch_loop 5 fail1_runner 2 2 []
         {| plog := [EExec 1; EBatchError 1]; ncalls := 1 |}.
Proof.
  split.
  - apply (proj1 C2_batch_failure 5 (fail3_device Exception) 7%Z 3);
      try reflexivity; try lia.
    + repeat split; discriminate.
    + intros i Hi. destruct i as [|[|[|i]]]; try lia;
        (eexists; split; [reflexivity|vm_compute; reflexivity]).
  - apply (proj2 C2_batch_failure 5 fail1_runner 2 [] st0 1%Z []); cbn;
      first [lia | reflexivity | discriminate].
Defined.

(** C2 (counterexample): in zork_python.py the first batch fails (exit
    status 1) and the loop still runs a second batch. *)
Lemma C2_subprocess_failure_continues :
  ncalls (snd (Subprocess.main Subprocess.MAX_BATCHES fail1_runner st0)) = 2.
Proof. vm_compute. reflexivity. Qed.

End Examples_C2.

Section LoopFacts.
Variable max : nat.
Variable exec : nat -> res pystr.

(** The loop's result depends on the number of calls made so far, not on
    the events logged before it. *)
Lemma loop_log_indep (fuel : nat) : forall batch acc l1 l2 n,
  fst (Persistent.batch_loop max exec fuel batch acc {| plog := l1; ncalls := n |})
  = fst (Persistent.batch_loop max exec fuel batch acc {| plog := l2; ncalls := n |}).
Proof.
  induction fuel as [|fuel IH]; intros batch acc l1 l2 n; cbn [Persistent.batch_loop];
    [reflexivity|].
  destruct (Nat.leb batch max); [|reflexivity].
  unfold bind, catch_exc, call_engine. cbn [plog ncalls].
  destruct (exec (S n)) as [o|[|]]; cbn [p_frame]; try reflexivity.
  destruct (contains GAME_COMPLETE o || Nat.ltb max (S batch)); [reflexivity|].
  apply IH.
Qed.

Lemma loop_no_interrupt (fuel : nat) : forall batch acc s,
  (forall i, exec i <> Raise KeyboardInterrupt) ->
  exists acc' b' s', Persistent.batch_loop max exec fuel batch acc s = (Ok (acc', b'), s').
Proof.
  induction fuel as [|fuel IH]; intros batch acc s Hk; cbn [Persistent.batch_loop].
  - now exists acc, batch, s.
  - destruct (Nat.leb batch max); [|now exists acc, batch, s].
    unfold bind, catch_exc, call_engine.
    specialize (Hk (S (ncalls s))) as Hks.
    destruct (exec (S (ncalls s))) as [o|[|]]; cbn [p_frame]; [| |congruence].
    + destruct (contains GAME_COMPLETE o || Nat.ltb max (S batch)); [|now apply IH].
      do 3 eexists. reflexivity.
    + do 3 eexists. reflexivity.
Qed.

End LoopFacts.

(** C9: in zork_persistent.py, when the loop exits (no [KeyboardInterrupt])
    and [get_state] or writing the state file raises, the failure is
    reported ("Failed to save state"), the output accumulated by the loop is
    still displayed, the success line is printed and [main] returns 0. *)
Theorem C9_save_failure_harmless (max : nat) (d : Persistent.Device) (h : Z) :
  Persistent.game_file_exists d = true -> Persistent.init_device d = Ok h ->
  Persistent.load_game d = Ok tt -> resume_ok d = true -> quiet_end d ->
  (forall i, Persistent.execute_batch d i <> Raise KeyboardInterrupt) ->
  save_fails d ->
  exists acc b,
    fst (Persistent.batch_loop max (Persistent.execute_batch d) max 1 [] st0) = Ok (acc, b)
    /\ fst (Persistent.main max d st0) = Ok 0%Z
    /\ In ESaveFailed (plog (snd (Persistent.main max d st0)))
    /\ In (EDisplay acc) (plog (snd (Persistent.main max d st0)))
    /\ In (ESuccess (b - 1)) (plog (snd (Persistent.main max d st0))).
Proof.
  intros Hg Hi Hl Hr Hq Hk Hs.
  destruct (loop_no_interrupt max _ max 1 [] st0 Hk) as (acc & b & s0 & E0).
  exists acc, b. rewrite E0. split; [reflexivity|].
  destruct (persistent_main_ok max d h acc b (fun _ => True) Hg Hi Hl Hr Hq)
    as (s' & l & _ & E & Hd & Hsu & Hf).
  - intros [l0 n] Hn. cbn [ncalls] in Hn. subst n.
    destruct (loop_no_interrupt max _ max 1 [] {| plog := l0; ncalls := 0 |} Hk)
      as (acc2 & b2 & s2 & E2).
    exists s2. split; [|exact I].
    pose proof (loop_log_indep max (Persistent.execute_batch d) max 1 [] l0 [] 0) as Ei.
    unfold st0 in E0. rewrite E0, E2 in Ei. cbn in Ei. injection Ei as -> ->.
    exact E2.
  - rewrite E. cbn [fst snd plog]. split; [reflexivity|].
    split; [apply in_or_app; right; now apply Hf|].
    split; apply in_or_app; right; assumption.
Qed.

(** A session whose third batch finishes the game and whose state save
    fails. *)
Definition save_fail_device : Persistent.Device := {|
  Persistent.game_file_exists := true;
  Persistent.init_device := Ok 7%Z;
  Persistent.load_game := Ok tt;
  Persistent.state_file_exists := false;
  Persistent.read_state_file := Ok [];
  Persistent.set_state := fun _ => Ok tt;
  Persistent.execute_batch := fun n =>
    match n with
    | 1%nat => Ok (ZORK_OUTPUT ++ NL :: of_ascii "West of House")
    | 3%nat => Ok GAME_COMPLETE
    | _ => Ok []
    end;
  Persistent.get_state := Raise Exception;
  Persistent.write_state_file := fun _ => Ok tt;
  Persistent.close_device := Ok tt |}.

Lemma C9_save_failure_harmless_witness :
  exists acc b,
    fst (Persistent.batch_loop 5 (Persistent.execute_batch save_fail_device) 5 1 [] st0)
      = Ok (acc, b)
    /\ fst (Persistent.main 5 save_fail_device st0) = Ok 0%Z
    /\ In ESaveFailed (plog (snd (Persistent.main 5 save_fail_device st0)))
    /\ In (EDisplay acc) (plog (snd (Persistent.main 5 save_fail_device st0)))
    /\ In (ESuccess (b - 1)) (plog (snd (Persistent.main 5 save_fail_device st0))).
Proof.
  apply C9_save_failure_harmless with (h := 7%Z); try reflexivity.
  - repeat split; discriminate.
  - intros [|[|[|[|i]]]]; discriminate.
  - now left.
Defined.

(** ** Bounded completion and the sentinel *)

(** The device [d] whose [execute_batch] answers are [e]. *)
Definition with_exec (d : Persistent.Device) (e : nat -> res pystr) : Persistent.Device := {|
  Persistent.game_file_exists := Persistent.game_file_exists d;
  Persistent.init_device := Persistent.init_device d;
  Persistent.load_game := Persistent.load_game d;
  Persistent.state_file_exists := Persistent.state_file_exists d;
  Persistent.read_state_file := Persistent.read_state_file d;
  Persistent.set_state := Persistent.set_state d;
  Persistent.execute_batch := e;
  Persistent.get_state := Persistent.get_state d;
  Persistent.write_state_file := Persistent.write_state_file d;
  Persistent.close_device := Persistent.close_device d |}.

(** [d]'s answers, with [o] as the answer to call [k]. *)
Definition exec_at (d : Persistent.Device) (k : nat) (o : pystr) : nat -> res pystr :=
  fun i => if Nat.eqb i k then Ok o else Persistent.execute_batch d i.

(** The runner [r] whose [subprocess.run] answers are [e]. *)
Definition with_run (r : Subprocess.Runner) (e : nat -> res (Z * pystr)) : Subprocess.Runner := {|
  Subprocess.exe_exists := Subprocess.exe_exists r;
  Subprocess.game_exists := Subprocess.game_exists r;
  Subprocess.state_exists := Subprocess.state_exists r;
  Subprocess.unlink_state := Subprocess.unlink_state r;
  Subprocess.run_subprocess := e |}.

(** [r]'s answers, with a successful run printing [o] as the answer to
    call [k]. *)
Definition run_at (r : Subprocess.Runner) (k : nat) (o : pystr) : nat -> res (Z * pystr) :=
  fun i => if Nat.eqb i k then Ok (0%Z, o) else Subprocess.run_subprocess r i.

Lemma persistent_loop_congr (max : nat) (e1 e2 : nat -> res pystr) (o1 o2 : pystr) :
  (forall i, i <> max -> e1 i = e2 i) -> e1 max = Ok o1 -> e2 max = Ok o2 ->
  p_extract o1 = p_extract o2 ->
  forall f b acc s, S (ncalls s) = b ->
  Persistent.batch_loop max e1 f b acc s = Persistent.batch_loop max e2 f b acc s.
Proof.
  intros Hne H1 H2 Hp f.
  induction f as [|f IH]; intros b acc s Hb; cbn [Persistent.batch_loop]; [reflexivity|].
  destruct (Nat.leb b max); [|reflexivity].
  unfold bind, catch_exc, call_engine. rewrite Hb.
  destruct (Nat.eq_dec b max) as [->|Hn].
  - rewrite H1, H2. cbn [p_frame]. rewrite Hp.
    rewrite (proj2 (Nat.ltb_lt max (S max))) by lia. now rewrite !orb_true_r.
  - rewrite (Hne b Hn). destruct (e2 b) as [o|[|]]; try reflexivity.
    cbn [p_frame]. destruct (contains GAME_COMPLETE o || Nat.ltb max (S b)); [reflexivity|].
    now apply IH.
Qed.

Lemma persistent_main_congr (max : nat) (d : Persistent.Device) (e1 e2 : nat -> res pystr) :
  (forall s, ncalls s = 0%nat ->
     Persistent.batch_loop max e1 max 1 [] s = Persistent.batch_loop max e2 max 1 [] s) ->
  Persistent.main max (with_exec d e1) st0 = Persistent.main max (with_exec d e2) st0.
Proof.
  intros Hl.
  unfold Persistent.main, Persistent.session_body, Persistent.run_session,
    Persistent.resume, bind, catch_exc, emit, lift, ret, try_finally.
  cbn [with_exec Persistent.game_file_exists Persistent.init_device Persistent.load_game
       Persistent.state_file_exists Persistent.read_state_file Persistent.set_state
       Persistent.execute_batch plog ncalls].
  destruct (Persistent.game_file_exists d); [|reflexivity]. cbn [negb].
  destruct (Persistent.init_device d) as [h|[|]]; try reflexivity.
  destruct (Persistent.load_game d) as [[]|[|]]; try reflexivity.
  destruct (Persistent.state_file_exists d).
  - destruct (Persistent.read_state_file d) as [b|[|]]; try reflexivity.
    destruct (Persistent.set_state d b) as [[]|[|]]; try reflexivity.
    now rewrite Hl.
  - now rewrite Hl.
Qed.

Lemma sub_loop_congr (max : nat) (r : Subprocess.Runner) (e1 e2 : nat -> res (Z * pystr))
    (o1 o2 : pystr) :
  (forall i, i <> max -> e1 i = e2 i) -> e1 max = Ok (0%Z, o1) -> e2 max = Ok (0%Z, o2) ->
  py_extract o1 = py_extract o2 ->
  forall f b acc s, S (ncalls s) = b ->
  Subprocess.batch_loop max (with_run r e1) f b acc s
  = Subprocess.batch_loop max (with_run r e2) f b acc s.
Proof.
  intros Hne H1 H2 Hp f.
  induction f as [|f IH]; intros b acc s Hb; cbn [Subprocess.batch_loop]; [reflexivity|].
  destruct (Nat.leb b max); [|reflexivity].
  unfold Subprocess.run_zork_batch, bind, call_engine, emit, ret.
  cbn [with_run Subprocess.run_subprocess]. rewrite Hb.
  destruct (Nat.eq_dec b max) as [->|Hn].
  - rewrite H1, H2. unfold Subprocess.batch_result. cbn [Z.eqb negb].
    rewrite Hp, Nat.leb_refl, !orb_true_r. reflexivity.
  - rewrite (Hne b Hn). destruct (e2 b) as [[rc o]|[|]]; try reflexivity.
    destruct (Subprocess.batch_result max b rc o) as [out fin].
    destruct (negb (rc =? 0)%Z), fin; try reflexivity; now apply IH.
Qed.

Lemma sub_main_congr (max : nat) (r : Subprocess.Runner) (e1 e2 : nat -> res (Z * pystr)) :
  (forall s, ncalls s = 0%nat ->
     Subprocess.batch_loop max (with_run r e1) max 1 [] s
     = Subprocess.batch_loop max (with_run r e2) max 1 [] s) ->
  Subprocess.main max (with_run r e1) st0 = Subprocess.main max (with_run r e2) st0.
Proof.
  intros Hl.
  unfold Subprocess.main, Subprocess.session, catch_interrupt, bind, emit, lift, ret.
  cbn [with_run Subprocess.exe_exists Subprocess.game_exists Subprocess.state_exists
       Subprocess.unlink_state plog ncalls].
  destruct (Subprocess.exe_exists r); [|reflexivity].
  destruct (Subprocess.game_exists r); [|reflexivity]. cbn [negb].
  destruct (Subprocess.state_exists r).
  - destruct (Subprocess.unlink_state r) as [[]|[|]]; try reflexivity.
    now rewrite Hl.
  - now rewrite Hl.
Qed.

(** C6 (as the code has it): no report tells a session that used up its
    budget from one whose engine signalled completion. When call
    [MAX_BATCHES] answers [o_b] (no sentinel) instead of [o_t] (with
    "Game complete") and both carry the same payload, the whole session is
    the same: exit status, "Game finished after [MAX_BATCHES] batches",
    output, SUCCESS line, every event. Both orchestrators treat reaching the
    bound as finishing ([batch > MAX_BATCHES], [batch_num >= MAX_BATCHES]). *)
Theorem C6_bound_indistinguishable (max : nat) (d : Persistent.Device)
    (r : Subprocess.Runner) (o_t o_b : pystr) :
  contains GAME_COMPLETE o_t = true -> contains GAME_COMPLETE o_b = false ->
  p_extract o_t = p_extract o_b -> py_extract o_t = py_extract o_b ->
  Persistent.main max (with_exec d (exec_at d max o_t)) st0
  = Persistent.main max (with_exec d (exec_at d max o_b)) st0
  /\ Subprocess.main max (with_run r (run_at r max o_t)) st0
     = Subprocess.main max (with_run r (run_at r max o_b)) st0.
Proof.
  intros _ _ Hp Hq. split.
  - apply persistent_main_congr. intros s Hs.
    apply (persistent_loop_congr max _ _ o_t o_b); unfold exec_at;
      try (now rewrite Nat.eqb_refl); [|exact Hp|lia].
    intros i Hi. now rewrite (proj2 (Nat.eqb_neq i max) Hi).
  - apply sub_main_congr. intros s Hs.
    apply (sub_loop_congr max r _ _ o_t o_b); unfold run_at;
      try (now rewrite Nat.eqb_refl); [|exact Hq|lia].
    intros i Hi. now rewrite (proj2 (Nat.eqb_neq i max) Hi).
Qed.

(** A device and a runner whose engine prints nothing except, at call
    [MAX_BATCHES], the text [last]. *)
Definition quiet_device (last : pystr) : Persistent.Device := {|
  Persistent.game_file_exists := true;
  Persistent.init_device := Ok 7%Z;
  Persistent.load_game := Ok tt;
  Persistent.state_file_exists := false;
  Persistent.read_state_file := Ok [];
  Persistent.set_state := fun _ => Ok tt;
  Persistent.execute_batch := fun n =>
    if Nat.eqb n Persistent.MAX_BATCHES then Ok last else Ok [];
  Persistent.get_state := Ok [];
  Persistent.write_state_file := fun _ => Ok tt;
  Persistent.close_device := Ok tt |}.

Definition quiet_runner (last : pystr) : Subprocess.Runner := {|
  Subprocess.exe_exists := true;
  Subprocess.game_exists := true;
  Subprocess.state_exists := false;
  Subprocess.unlink_state := Ok tt;
  Subprocess.run_subprocess := fun n =>
    if Nat.eqb n Subprocess.MAX_BATCHES then Ok (0%Z, last) else Ok (0%Z, []) |}.

Lemma C6_bound_indistinguishable_witness :
  Persistent.main 2 (with_exec (quiet_device []) (exec_at (quiet_device []) 2 GAME_COMPLETE)) st0
  = Persistent.main 2 (with_exec (quiet_device []) (exec_at (quiet_device []) 2 [])) st0
  /\ Subprocess.main 2 (with_run (quiet_runner []) (run_at (quiet_runner []) 2 GAME_COMPLETE)) st0
     = Subprocess.main 2 (with_run (quiet_runner []) (run_at (quiet_runner []) 2 [])) st0.
Proof.
  apply C6_bound_indistinguishable; vm_compute; reflexivity.
Defined.

(** With [MAX_BATCHES = 50], the session whose 50th batch prints
    "Game complete" and the one where no batch ever does end alike: same
    exit status, same report, same events. *)
Lemma C6_bounded_same_as_complete :
  contains GAME_COMPLETE GAME_COMPLETE = true
  /\ Persistent.main Persistent.MAX_BATCHES (quiet_device GAME_COMPLETE) st0
  = Persistent.main Persistent.MAX_BATCHES (quiet_device []) st0
  /\ Subprocess.main Subprocess.MAX_BATCHES (quiet_runner GAME_COMPLETE) st0
     = Subprocess.main Subprocess.MAX_BATCHES (quiet_runner []) st0.
Proof. split; [|split]; vm_compute; reflexivity. Qed.

(** ** Resuming a saved state *)

(** C7 (as the code has it): [zork_tt.set_state] is called outside any
    [try]/[except] (line 102), unlike every other device call. When it
    raises, [main] raises the exception after the [finally] block closed the
    device: no batch runs and nothing is displayed. *)
Theorem C7_set_state_failure_aborts (max : nat) (d : Persistent.Device) (h : Z)
    (b : list Byte.byte) :
  Persistent.game_file_exists d = true -> Persistent.init_device d = Ok h ->
  Persistent.load_game d = Ok tt -> Persistent.state_file_exists d = true ->
  Persistent.read_state_file d = Ok b -> Persistent.set_state d b = Raise Exception ->
  Persistent.close_device d = Ok tt ->
  Persistent.main max d st0
  = (Raise Exception,
     {| plog := [EInitDevice; ELoadGame; EReadState; ESetState b; ECloseDevice h];
        ncalls := 0 |}).
Proof.
  intros Hg Hi Hl He Hr Hs Hc.
  rewrite (main_acquired max d h Hg Hi).
  unfold try_finally, Persistent.session_body, Persistent.run_session,
    Persistent.resume, Persistent.cleanup, bind, catch_exc, emit, lift, ret.
  cbn [plog ncalls app]. rewrite Hl, He, Hr, Hs, Hc. reflexivity.
Qed.

Definition bad_state_device : Persistent.Device := {|
  Persistent.game_file_exists := true;
  Persistent.init_device := Ok 7%Z;
  Persistent.load_game := Ok tt;
  Persistent.state_file_exists := true;
  Persistent.read_state_file := Ok [Byte.x00];
  Persistent.set_state := fun _ => Raise Exception;
  Persistent.execute_batch := fun _ => Ok GAME_COMPLETE;
  Persistent.get_state := Ok [];
  Persistent.write_state_file := fun _ => Ok tt;
  Persistent.close_device := Ok tt |}.

Lemma C7_set_state_failure_aborts_witness :
  Persistent.main Persistent.MAX_BATCHES bad_state_device st0
  = (Raise Exception,
     {| plog := [EInitDevice; ELoadGame; EReadState; ESetState [Byte.x00]; ECloseDevice 7%Z];
        ncalls := 0 |}).
Proof. apply C7_set_state_failure_aborts; reflexivity. Defined.

(** C8 (as the code has it). In zork_persistent.py an existing state file
    is read and its blob passed to [set_state] before the first batch: the
    loop starts from a state whose log ends with [ESetState b; EResumed];
    without a state file it starts after [EFresh], nothing being read.
    zork_python.py instead deletes an existing state file before its first
    batch ("Clear previous state to start fresh") and never restores it:
    the session starts after [EUnlinkState] alone. *)
Theorem C8_state_at_start :
  (forall max d h b,
     Persistent.game_file_exists d = true -> Persistent.init_device d = Ok h ->
     Persistent.load_game d = Ok tt -> Persistent.state_file_exists d = true ->
     Persistent.read_state_file d = Ok b -> Persistent.set_state d b = Ok tt ->
     Persistent.main max d st0
     = try_finally
         (' (acc, batch) <- Persistent.batch_loop max (Persistent.execute_batch d) max 1 [] ;;
          Persistent.finish d acc batch)
         (Persistent.cleanup d h)
         {| plog := [EInitDevice; ELoadGame; EReadState; ESetState b; EResumed];
            ncalls := 0 |})
  /\ (forall max d h,
     Persistent.game_file_exists d = true -> Persistent.init_device d = Ok h ->
     Persistent.load_game d = Ok tt -> Persistent.state_file_exists d = false ->
     Persistent.main max d st0
     = try_finally
         (' (acc, batch) <- Persistent.batch_loop max (Persistent.execute_batch d) max 1 [] ;;
          Persistent.finish d acc batch)
         (Persistent.cleanup d h)
         {| plog := [EInitDevice; ELoadGame; EFresh]; ncalls := 0 |})
  /\ (forall max r,
     Subprocess.exe_exists r = true -> Subprocess.game_exists r = true ->
     Subprocess.state_exists r = true -> Subprocess.unlink_state r = Ok tt ->
     Subprocess.main max r st0
     = catch_interrupt (Subprocess.session max r) (emit EInterrupted ;;; ret 130%Z)
         {| plog := [EUnlinkState]; ncalls := 0 |}).
Proof.
  split; [|split].
  - intros max d h b Hg Hi Hl He Hr Hs. apply (main_run max d h); try assumption.
    now rewrite (resume_state d _ b He Hr Hs).
  - intros max d h Hg Hi Hl He. apply (main_run max d h); try assumption.
    now rewrite (resume_fresh d _ He).
  - intros max r Hx Hg He Hu. unfold Subprocess.main. rewrite Hx, Hg, He.
    cbn [negb]. unfold bind at 1. unfold bind, emit, lift. cbn [plog ncalls app].
    now rewrite Hu.
Qed.

(** A device with a saved state, and a runner that finds a stale state file. *)
Definition saved_device : Persistent.Device := {|
  Persistent.game_file_exists := true;
  Persistent.init_device := Ok 7%Z;
  Persistent.load_game := Ok tt;
  Persistent.state_file_exists := true;
  Persistent.read_state_file := Ok [Byte.x2a];
  Persistent.set_state := fun _ => Ok tt;
  Persistent.execute_batch := fun _ => Ok GAME_COMPLETE;
  Persistent.get_state := Ok [];
  Persistent.write_state_file := fun _ => Ok tt;
  Persistent.close_device := Ok tt |}.

Definition stale_runner : Subprocess.Runner := {|
  Subprocess.exe_exists := true;
  Subprocess.game_exists := true;
  Subprocess.state_exists := true;
  Subprocess.unlink_state := Ok tt;
  Subprocess.run_subprocess := fun _ => Ok (0%Z, GAME_COMPLETE) |}.

Lemma C8_state_at_start_witness :
  Persistent.main 1 saved_device st0
  = try_finally
      (' (acc, batch) <- Persistent.batch_loop 1 (Persistent.execute_batch saved_device) 1 1 [] ;;
       Persistent.finish saved_device acc batch)
      (Persistent.cleanup saved_device 7%Z)
      {| plog := [EInitDevice; ELoadGame; EReadState; ESetState [Byte.x2a]; EResumed];
         ncalls := 0 |}
  /\ Persistent.main 1 term2_device st0
     = try_finally
         (' (acc, batch) <- Persistent.batch_loop 1 (Persistent.execute_batch term2_device) 1 1 [] ;;
          Persistent.finish term2_device acc batch)
         (Persistent.cleanup term2_device 7%Z)
         {| plog := [EInitDevice; ELoadGame; EFresh]; ncalls := 0 |}
  /\ Subprocess.main 1 stale_runner st0
     = catch_interrupt (Subprocess.session 1 stale_runner) (emit EInterrupted ;;; ret 130%Z)
         {| plog := [EUnlinkState]; ncalls := 0 |}.
Proof.
  split; [|split].
  - apply (proj1 C8_state_at_start); reflexivity.
  - apply (proj1 (proj2 C8_state_at_start)); reflexivity.
  - apply (proj2 (proj2 C8_state_at_start)); reflexivity.
Defined.

(** zork_python.py with a state file left by an earlier session: the file
    is deleted, nothing is read back, and the first batch starts fresh. *)
Lemma C8_subprocess_discards_state :
  Subprocess.main Subprocess.MAX_BATCHES stale_runner st0
  = (Ok 0%Z, {| plog := [EUnlinkState; EExec 1; EFinished 1; EDisplay []; ESuccess 1];
                ncalls := 1 |}).
Proof. vm_compute. reflexivity. Qed.

(** * Further properties of the two orchestrators *)

(** ** The engine is called at most [MAX_BATCHES] times *)

Ltac calls_lia := cbn [fst snd ncalls plog bind ret emit lift st0] in *; lia.

Lemma resume_calls (d : Persistent.Device) (s : pstate) :
  ncalls (snd (Persistent.resume d s)) = ncalls s.
Proof.
  unfold Persistent.resume, bind, emit, lift.
  destruct (Persistent.state_file_exists d); [|reflexivity]. cbn [plog ncalls].
  destruct (Persistent.read_state_file d) as [b|e]; [|reflexivity].
  destruct (Persistent.set_state d b); reflexivity.
Qed.

Lemma persistent_loop_calls (max : nat) (exec : nat -> res pystr) (fuel : nat) :
  forall b acc s,
  (ncalls (snd (Persistent.batch_loop max exec fuel b acc s)) <= ncalls s + (S max - b))%nat.
Proof.
  induction fuel as [|fuel IH]; intros b acc s; cbn [Persistent.batch_loop].
  - cbn. lia.
  - destruct (Nat.leb b max) eqn:Hb; [|calls_lia]. apply Nat.leb_le in Hb.
    unfold bind, catch_exc, call_engine, emit, ret.
    destruct (exec (S (ncalls s))) as [o|[|]]; cbn [p_frame]; [|calls_lia|calls_lia].
    destruct (contains GAME_COMPLETE o || Nat.ltb max (S b)); [calls_lia|].
    eapply Nat.le_trans; [apply IH|]. calls_lia.
Qed.

Lemma sub_loop_calls (max : nat) (r : Subprocess.Runner) (fuel : nat) :
  forall b acc s,
  (ncalls (snd (Subprocess.batch_loop max r fuel b acc s)) <= ncalls s + (S max - b))%nat.
Proof.
  induction fuel as [|fuel IH]; intros b acc s; cbn [Subprocess.batch_loop].
  - cbn. lia.
  - destruct (Nat.leb b max) eqn:Hb; [|calls_lia]. apply Nat.leb_le in Hb.
    unfold Subprocess.run_zork_batch, bind, call_engine, emit, ret.
    destruct (Subprocess.run_subprocess r (S (ncalls s))) as [[rc o]|e]; [|calls_lia].
    destruct (negb (rc =? 0)%Z);
      destruct (Subprocess.batch_result max b rc o) as [out []];
      try (calls_lia);
      (eapply Nat.le_trans; [apply IH|]; calls_lia).
Qed.

(** zork_persistent.py: whatever the device answers, a session calls
    [execute_batch] at most [MAX_BATCHES] times. *)
Theorem persistent_calls_bounded (max : nat) (d : Persistent.Device) :
  (ncalls (snd (Persistent.main max d st0)) <= max)%nat.
Proof.
  unfold Persistent.main. destruct (Persistent.game_file_exists d); cbn [negb]; [|calls_lia].
  unfold bind at 1, catch_exc at 1, bind at 1, emit at 1, lift at 1.
  cbn [plog ncalls app].
  destruct (Persistent.init_device d) as [h|[|]]; [|calls_lia|calls_lia].
  rewrite try_finally_state, cleanup_calls.
  unfold Persistent.session_body, bind at 1, catch_exc at 1, bind at 1, emit at 1, lift at 1.
  cbn [plog ncalls app].
  destruct (Persistent.load_game d) as [u|[|]]; [|calls_lia|calls_lia].
  unfold Persistent.run_session, bind.
  match goal with |- context [Persistent.resume d ?s] =>
    pose proof (resume_calls d s) as Hr;
    destruct (Persistent.resume d s) as [[u'|e] s2]; cbn [snd] in Hr; [|calls_lia]
  end.
  match goal with |- context [Persistent.batch_loop max ?e max 1 [] ?s] =>
    pose proof (persistent_loop_calls max e max 1 [] s) as Hl;
    destruct (Persistent.batch_loop max e max 1 [] s) as [[[acc b]|e'] s3];
    cbn [snd] in Hl; [|calls_lia]
  end.
  rewrite finish_calls. calls_lia.
Qed.

(** zork_python.py: whatever the executable answers, a session runs it at
    most [MAX_BATCHES] times. *)
Theorem subprocess_calls_bounded (max : nat) (r : Subprocess.Runner) :
  (ncalls (snd (Subprocess.main max r st0)) <= max)%nat.
Proof.
  unfold Subprocess.main.
  destruct (Subprocess.exe_exists r); cbn [negb]; [|calls_lia].
  destruct (Subprocess.game_exists r); cbn [negb]; [|calls_lia].
  unfold catch_interrupt, Subprocess.session, bind, emit, lift, ret.
  destruct (Subprocess.state_exists r);
    [destruct (Subprocess.unlink_state r) as [u|e]; [|calls_lia]|];
    match goal with |- context [Subprocess.batch_loop max r max 1 [] ?s] =>
      pose proof (sub_loop_calls max r max 1 [] s) as Hl;
      destruct (Subprocess.batch_loop max r max 1 [] s) as [[[acc b]|[|]] s3];
      calls_lia
    end.
Qed.

(** ** Complete runs of zork_persistent.py *)

(** What a resume that raises nothing logs. *)
Definition resume_log (d : Persistent.Device) : list event :=
  if Persistent.state_file_exists d then
    match Persistent.read_state_file d with
    | Ok b => [EReadState; ESetState b; EResumed]
    | Raise _ => []
    end
  else [EFresh].

Lemma resume_log_spec (d : Persistent.Device) (s : pstate) :
  resume_ok d = true ->
  Persistent.resume d s
  = (Ok tt, {| plog := plog s ++ resume_log d; ncalls := ncalls s |}).
Proof.
  unfold resume_ok, resume_log.
  destruct (Persistent.state_file_exists d) eqn:He; cbn [negb orb].
  - destruct (Persistent.read_state_file d) as [b|e] eqn:Hr; [|discriminate].
    destruct (Persistent.set_state d b) as [[]|e] eqn:Hs; [|discriminate].
    intros _. rewrite (resume_state d s b He Hr Hs). now rewrite <- !app_assoc.
  - intros _. now apply resume_fresh.
Qed.

Lemma accum_snoc (exec : nat -> res pystr) (j : nat) : forall n acc,
  accum exec n (S j) acc = add_text (accum exec n j acc) (res_text (exec (S (n + j)))).
Proof.
  induction j as [|j IH]; intros n acc.
  - cbn [accum]. now rewrite Nat.add_0_r.
  - change (accum exec n (S (S j)) acc)
      with (accum exec (S n) (S j) (add_text acc (res_text (exec (S n))))).
    rewrite IH. cbn [accum]. now replace (S n + j)%nat with (n + S j)%nat by lia.
Qed.

Lemma seq_snoc (j : nat) : seq 1 (S j) = seq 1 j ++ [S j].
Proof. rewrite seq_S. reflexivity. Qed.

(** The last call of a persistent loop that ends at call [k]. *)
Lemma persistent_run_to (max : nat) (exec : nat -> res pystr) (k : nat) (s : pstate) :
  ncalls s = 0%nat -> (1 <= k <= max)%nat ->
  (forall i, (1 <= i < k)%nat -> exists o, exec i = Ok o /\ contains GAME_COMPLETE o = false) ->
  Persistent.batch_loop max exec max 1 [] s
  = Persistent.batch_loop max exec (S (max - k)) k (accum exec 0 (k - 1) [])
      {| plog := plog s ++ map EExec (seq 1 (k - 1)); ncalls := (k - 1)%nat |}.
Proof.
  intros H0 Hk Hpre. destruct s as [l n]; cbn [ncalls] in H0; subst n.
  assert (E1 : Persistent.batch_loop max exec max 1 [] {| plog := l; ncalls := 0 |}
               = Persistent.batch_loop max exec (k - 1 + S (max - k)) (S 0) []
                   {| plog := l; ncalls := 0 |}) by (f_equal; lia).
  pose proof (loop_run max exec (k - 1) (S (max - k)) [] {| plog := l; ncalls := 0 |}
                ltac:(intros i Hi; apply Hpre; cbn; lia) ltac:(cbn; lia)) as E2.
  cbn [plog ncalls] in E2. rewrite E1, E2. cbn [plog].
  now replace (S (0 + (k - 1))) with k by lia.
Qed.

Lemma loop_interrupt (max : nat) (exec : nat -> res pystr) (f : nat) (acc : pystr)
    (st : pstate) :
  exec (S (ncalls st)) = Raise KeyboardInterrupt -> (S (ncalls st) <= max)%nat ->
  Persistent.batch_loop max exec (S f) (S (ncalls st)) acc st
  = (Raise KeyboardInterrupt,
     {| plog := plog st ++ [EExec (S (ncalls st))]; ncalls := S (ncalls st) |}).
Proof.
  intros Ho Hle. cbn [Persistent.batch_loop].
  replace (Nat.leb (S (ncalls st)) max) with true by (symmetry; apply Nat.leb_le; lia).
  unfold bind, catch_exc, call_engine. now rewrite Ho.
Qed.

(** zork_persistent.py, a session that runs to its end: when call [k]
    (1 <= k <= MAX_BATCHES) is the first to print "Game complete", or
    [k = MAX_BATCHES] and no call printed it, with the resume, the save and
    the close succeeding, the session makes the calls 1..k, prints
    "Game finished after k batches", saves the state exported after call k,
    displays the payloads of calls 1..k joined in order, reports
    "Completed k batches", closes the device and returns 0, in this order. *)
Theorem persistent_complete_run (max : nat) (d : Persistent.Device) (h : Z) (k : nat)
    (b : list Byte.byte) :
  Persistent.game_file_exists d = true -> Persistent.init_device d = Ok h ->
  Persistent.load_game d = Ok tt -> resume_ok d = true ->
  (1 <= k <= max)%nat ->
  (forall i, (1 <= i < k)%nat ->
     exists o, Persistent.execute_batch d i = Ok o /\ contains GAME_COMPLETE o = false) ->
  (exists o, Persistent.execute_batch d k = Ok o
             /\ (contains GAME_COMPLETE o = true \/ k = max)) ->
  Persistent.get_state d = Ok b -> Persistent.write_state_file d b = Ok tt ->
  Persistent.close_device d = Ok tt ->
  Persistent.main max d st0
  = (Ok 0%Z,
     {| plog := [EInitDevice; ELoadGame] ++ resume_log d ++ map EExec (seq 1 k)
                ++ [EFinished k; EGetState; EWriteState b; EStateSaved;
                    EDisplay (accum (Persistent.execute_batch d) 0 k []); ESuccess k;
                    ECloseDevice h];
        ncalls := k |}).
Proof.
  intros Hg Hi Hl Hr Hk Hpre [o [Ho Hfin]] Hgs Hw Hc.
  rewrite (main_run max d h _ Hg Hi Hl (resume_log_spec d _ Hr)).
  cbn [plog ncalls].
  unfold try_finally, bind at 1.
  rewrite (persistent_run_to max _ k
             {| plog := [EInitDevice; ELoadGame] ++ resume_log d; ncalls := 0 |}
             eq_refl Hk Hpre). cbn [plog].
  pose proof (loop_stop max (Persistent.execute_batch d) (max - k)
                (accum (Persistent.execute_batch d) 0 (k - 1) [])
                {| plog := ([EInitDevice; ELoadGame] ++ resume_log d)
                           ++ map EExec (seq 1 (k - 1));
                   ncalls := (k - 1)%nat |} o) as E.
  cbn [plog ncalls] in E. replace (S (k - 1)) with k in E by lia.
  rewrite E by first [exact Ho | lia | destruct Hfin as [Hf|Hf]; [now left|right; lia]].
  unfold Persistent.finish, Persistent.cleanup, bind, catch_exc, emit, lift, ret.
  rewrite Hgs, Hw, Hc. cbn [plog ncalls].
  replace (S k - 1)%nat with k by lia.
  assert (A : add_text (accum (Persistent.execute_batch d) 0 (k - 1) []) (p_extract o)
              = accum (Persistent.execute_batch d) 0 k []).
  { destruct k as [|k']; [lia|]. rewrite accum_snoc. cbn [Nat.add Nat.sub].
    rewrite Nat.sub_0_r, Ho. reflexivity. }
  rewrite A. destruct k as [|k']; [lia|]. cbn [Nat.sub]. rewrite Nat.sub_0_r, seq_snoc, map_app.
  now rewrite <- !app_assoc.
Qed.

(** zork_persistent.py catches no [KeyboardInterrupt]: when call [j] of
    [execute_batch] is interrupted, the interrupt leaves [main] after the
    [finally] block closed the device. The state is not saved, no output is
    displayed and no status is returned. *)
Theorem persistent_interrupted (max : nat) (d : Persistent.Device) (h : Z) (j : nat) :
  Persistent.game_file_exists d = true -> Persistent.init_device d = Ok h ->
  Persistent.load_game d = Ok tt -> resume_ok d = true ->
  (1 <= j <= max)%nat ->
  (forall i, (1 <= i < j)%nat ->
     exists o, Persistent.execute_batch d i = Ok o /\ contains GAME_COMPLETE o = false) ->
  Persistent.execute_batch d j = Raise KeyboardInterrupt ->
  Persistent.close_device d = Ok tt ->
  Persistent.main max d st0
  = (Raise KeyboardInterrupt,
     {| plog := [EInitDevice; ELoadGame] ++ resume_log d ++ map EExec (seq 1 j)
                ++ [ECloseDevice h];
        ncalls := j |}).
Proof.
  intros Hg Hi Hl Hr Hj Hpre Hx Hc.
  rewrite (main_run max d h _ Hg Hi Hl (resume_log_spec d _ Hr)).
  cbn [plog ncalls].
  unfold try_finally, bind at 1.
  rewrite (persistent_run_to max _ j
             {| plog := [EInitDevice; ELoadGame] ++ resume_log d; ncalls := 0 |}
             eq_refl Hj Hpre). cbn [plog].
  pose proof (loop_interrupt max (Persistent.execute_batch d) (max - j)
                (accum (Persistent.execute_batch d) 0 (j - 1) [])
                {| plog := ([EInitDevice; ELoadGame] ++ resume_log d)
                           ++ map EExec (seq 1 (j - 1));
                   ncalls := (j - 1)%nat |}) as E.
  cbn [plog ncalls] in E. replace (S (j - 1)) with j in E by lia.
  rewrite E by first [exact Hx | lia].
  unfold Persistent.cleanup, bind, catch_exc, emit, lift, ret.
  rewrite Hc. cbn [plog ncalls].
  destruct j as [|j']; [lia|]. cbn [Nat.sub]. rewrite Nat.sub_0_r, seq_snoc, map_app.
  now rewrite <- !app_assoc.
Qed.

(** ** Complete runs of zork_python.py *)

(** The payload [run_zork_batch] returns for one run of the executable. *)
Definition sub_text (x : res (Z * pystr)) : pystr :=
  match x with
  | Ok (rc, o) => if (rc =? 0)%Z then py_extract o else []
  | Raise _ => []
  end.

(** Output accumulated by the runs [n+1 .. n+j]. *)
Fixpoint sub_accum (run : nat -> res (Z * pystr)) (n j : nat) (acc : pystr) : pystr :=
  match j with
  | O => acc
  | S j' => sub_accum run (S n) j' (add_text acc (sub_text (run (S n))))
  end.

(** The events of the [i]-th run of the executable. *)
Definition sub_call_log (run : nat -> res (Z * pystr)) (i : nat) : list event :=
  EExec i :: match run i with
             | Ok (rc, _) => if (rc =? 0)%Z then [] else [EBatchError i]
             | Raise _ => []
             end.

(** The events before the [try:] block of zork_python.py's [main]. *)
Definition unlink_log (r : Subprocess.Runner) : list event :=
  if Subprocess.state_exists r then [EUnlinkState] else [].

Lemma sub_accum_snoc (run : nat -> res (Z * pystr)) (j : nat) : forall n acc,
  sub_accum run n (S j) acc = add_text (sub_accum run n j acc) (sub_text (run (S (n + j)))).
Proof.
  induction j as [|j IH]; intros n acc.
  - cbn [sub_accum]. now rewrite Nat.add_0_r.
  - change (sub_accum run n (S (S j)) acc)
      with (sub_accum run (S n) (S j) (add_text acc (sub_text (run (S n))))).
    rewrite IH. cbn [sub_accum]. now replace (S n + j)%nat with (n + S j)%nat by lia.
Qed.

Lemma flat_map_snoc {X Y} (f : X -> list Y) (l : list X) (x : X) :
  flat_map f (l ++ [x]) = flat_map f l ++ f x.
Proof. rewrite flat_map_app. cbn. now rewrite app_nil_r. Qed.

Section SubExact.
Variable max : nat.
Variable r : Subprocess.Runner.

Lemma sub_step_exact (f : nat) (acc : pystr) (st : pstate) (rc : Z) (o : pystr) :
  Subprocess.run_subprocess r (S (ncalls st)) = Ok (rc, o) ->
  (S (ncalls st) <= max)%nat ->
  Subprocess.batch_loop max r (S f) (S (ncalls st)) acc st
  = if snd (Subprocess.batch_result max (S (ncalls st)) rc o)
    then (Ok (add_text acc (sub_text (Ok (rc, o))), S (ncalls st)),
          {| plog := plog st ++ sub_call_log (Subprocess.run_subprocess r) (S (ncalls st))
                     ++ [EFinished (S (ncalls st))];
             ncalls := S (ncalls st) |})
    else Subprocess.batch_loop max r f (S (S (ncalls st)))
           (add_text acc (sub_text (Ok (rc, o))))
           {| plog := plog st ++ sub_call_log (Subprocess.run_subprocess r) (S (ncalls st));
              ncalls := S (ncalls st) |}.
Proof.
  intros Ho Hle. cbn [Subprocess.batch_loop].
  replace (Nat.leb (S (ncalls st)) max) with true by (symmetry; apply Nat.leb_le; lia).
  unfold Subprocess.run_zork_batch, sub_call_log, bind, call_engine. rewrite Ho.
  unfold Subprocess.batch_result, sub_text.
  destruct (rc =? 0)%Z; cbn [negb emit ret plog ncalls fst snd];
    [destruct (contains GAME_COMPLETE o || Nat.leb max (S (ncalls st)))|];
    cbn [negb emit ret plog ncalls fst snd]; rewrite <- ?app_assoc; reflexivity.
Qed.

Lemma sub_run_exact (j : nat) : forall (f : nat) (acc : pystr) (st : pstate),
  (forall i, (1 <= i <= j)%nat ->
     exists rc o, Subprocess.run_subprocess r (ncalls st + i) = Ok (rc, o)
                  /\ snd (Subprocess.batch_result max (ncalls st + i) rc o) = false) ->
  (ncalls st + j < max)%nat ->
  Subprocess.batch_loop max r (j + f) (S (ncalls st)) acc st
  = Subprocess.batch_loop max r f (S (ncalls st + j))
      (sub_accum (Subprocess.run_subprocess r) (ncalls st) j acc)
      {| plog := plog st ++ flat_map (sub_call_log (Subprocess.run_subprocess r))
                                     (seq (S (ncalls st)) j);
         ncalls := ncalls st + j |}.
Proof.
  induction j as [|j IH]; intros f acc [l n] Hok Hlt; cbn [plog ncalls] in *.
  - cbn. now rewrite app_nil_r, Nat.add_0_r.
  - destruct (Hok 1%nat ltac:(lia)) as [rc [o [Ho Hf]]].
    rewrite Nat.add_1_r in Ho, Hf.
    change (S j + f)%nat with (S (j + f)).
    pose proof (sub_step_exact (j + f) acc {| plog := l; ncalls := n |} rc o Ho
                  ltac:(cbn; lia)) as E.
    cbn [plog ncalls] in E. rewrite Hf in E. rewrite E.
    pose proof (IH f (add_text acc (sub_text (Ok (rc, o))))
                  {| plog := l ++ sub_call_log (Subprocess.run_subprocess r) (S n);
                     ncalls := S n |}) as E2.
    cbn [plog ncalls] in E2. rewrite E2.
    + replace (S n + j)%nat with (n + S j)%nat by lia.
      cbn [sub_accum seq flat_map]. rewrite Ho. now rewrite <- app_assoc.
    + intros i Hi. destruct (Hok (S i) ltac:(lia)) as [rc' [o' [H1 H2]]].
      exists rc', o'. now replace (S n + i)%nat with (n + S i)%nat by lia.
    + lia.
Qed.

End SubExact.

Lemma sub_main_exact (max : nat) (r : Subprocess.Runner) :
  Subprocess.exe_exists r = true -> Subprocess.game_exists r = true ->
  (Subprocess.state_exists r = false \/ Subprocess.unlink_state r = Ok tt) ->
  Subprocess.main max r st0
  = catch_interrupt (Subprocess.session max r) (emit EInterrupted ;;; ret 130%Z)
      {| plog := unlink_log r; ncalls := 0 |}.
Proof.
  intros He Hg Hu. unfold Subprocess.main, unlink_log. rewrite He, Hg. cbn [negb].
  destruct (Subprocess.state_exists r) eqn:Hs.
  - destruct Hu as [Hu|Hu]; [discriminate|].
    unfold bind at 1. cbn [emit lift plog ncalls app].
    unfold bind at 1. now rewrite Hu.
  - reflexivity.
Qed.

Lemma sub_not_finished (max i : nat) (rc : Z) (o : pystr) :
  (i < max)%nat -> (rc <> 0%Z \/ contains GAME_COMPLETE o = false) ->
  snd (Subprocess.batch_result max i rc o) = false.
Proof.
  intros Hi Hf. unfold Subprocess.batch_result.
  destruct (rc =? 0)%Z eqn:E; cbn [negb fst snd]; [|reflexivity].
  apply Z.eqb_eq in E. destruct Hf as [Hf|Hf]; [contradiction|].
  rewrite Hf. apply Nat.leb_gt. exact Hi.
Qed.

Lemma sub_run_to (max : nat) (r : Subprocess.Runner) (k : nat) (s : pstate) :
  ncalls s = 0%nat -> (1 <= k <= max)%nat ->
  (forall i, (1 <= i < k)%nat ->
     exists rc o, Subprocess.run_subprocess r i = Ok (rc, o)
                  /\ (rc <> 0%Z \/ contains GAME_COMPLETE o = false)) ->
  Subprocess.batch_loop max r max 1 [] s
  = Subprocess.batch_loop max r (S (max - k)) k
      (sub_accum (Subprocess.run_subprocess r) 0 (k - 1) [])
      {| plog := plog s ++ flat_map (sub_call_log (Subprocess.run_subprocess r)) (seq 1 (k - 1));
         ncalls := (k - 1)%nat |}.
Proof.
  intros H0 Hk Hpre. destruct s as [l n]; cbn [ncalls] in H0; subst n.
  assert (E1 : Subprocess.batch_loop max r max 1 [] {| plog := l; ncalls := 0 |}
               = Subprocess.batch_loop max r (k - 1 + S (max - k)) (S 0) []
                   {| plog := l; ncalls := 0 |}) by (f_equal; lia).
  pose proof (sub_run_exact max r (k - 1) (S (max - k)) [] {| plog := l; ncalls := 0 |})
    as E2.
  cbn [plog ncalls] in E2. rewrite E1, E2.
  - now replace (S (0 + (k - 1))) with k by lia.
  - intros i Hi. cbn [ncalls]. destruct (Hpre i ltac:(lia)) as [rc [o [H1 H2]]].
    exists rc, o. split; [exact H1|]. apply sub_not_finished; [lia|exact H2].
  - cbn. lia.
Qed.

(** zork_python.py, a session that runs to its end: when run [k]
    (1 <= k <= MAX_BATCHES) exits with status 0 and prints "Game complete",
    or [k = MAX_BATCHES] and exits with status 0, and no earlier run
    finished the game, the session runs the executable k times, prints
    "Game finished after k batches", displays the payloads of the runs
    joined in order, reports "Completed k batches" and returns 0. *)
Theorem subprocess_complete_run (max : nat) (r : Subprocess.Runner) (k : nat) :
  Subprocess.exe_exists r = true -> Subprocess.game_exists r = true ->
  (Subprocess.state_exists r = false \/ Subprocess.unlink_state r = Ok tt) ->
  (1 <= k <= max)%nat ->
  (forall i, (1 <= i < k)%nat ->
     exists rc o, Subprocess.run_subprocess r i = Ok (rc, o)
                  /\ (rc <> 0%Z \/ contains GAME_COMPLETE o = false)) ->
  (exists o, Subprocess.run_subprocess r k = Ok (0%Z, o)
             /\ (contains GAME_COMPLETE o = true \/ k = max)) ->
  Subprocess.main max r st0
  = (Ok 0%Z,
     {| plog := unlink_log r ++ flat_map (sub_call_log (Subprocess.run_subprocess r)) (seq 1 k)
                ++ [EFinished k; EDisplay (sub_accum (Subprocess.run_subprocess r) 0 k []);
                    ESuccess k];
        ncalls := k |}).
Proof.
  intros He Hg Hu Hk Hpre [o [Ho Hfin]].
  rewrite (sub_main_exact max r He Hg Hu).
  unfold catch_interrupt, Subprocess.session, bind at 1.
  rewrite (sub_run_to max r k {| plog := unlink_log r; ncalls := 0 |} eq_refl Hk Hpre).
  cbn [plog].
  pose proof (sub_step_exact max r (max - k)
                (sub_accum (Subprocess.run_subprocess r) 0 (k - 1) [])
                {| plog := unlink_log r
                           ++ flat_map (sub_call_log (Subprocess.run_subprocess r)) (seq 1 (k - 1));
                   ncalls := (k - 1)%nat |} 0%Z o) as E.
  cbn [plog ncalls] in E. replace (S (k - 1)) with k in E by lia.
  rewrite E by first [exact Ho | lia].
  replace (snd (Subprocess.batch_result max k 0 o)) with true.
  2:{ unfold Subprocess.batch_result. cbn [Z.eqb negb snd].
      destruct Hfin as [Hf|Hf]; [now rewrite Hf|].
      subst k. now rewrite Nat.leb_refl, orb_true_r. }
  unfold bind, emit, ret. cbn [plog ncalls].
  assert (A : add_text (sub_accum (Subprocess.run_subprocess r) 0 (k - 1) [])
                (sub_text (Ok (0%Z, o)))
              = sub_accum (Subprocess.run_subprocess r) 0 k []).
  { destruct k as [|k']; [lia|]. rewrite sub_accum_snoc. cbn [Nat.add Nat.sub].
    rewrite Nat.sub_0_r, Ho. reflexivity. }
  rewrite A. destruct k as [|k']; [lia|]. cbn [Nat.sub].
  rewrite Nat.sub_0_r, seq_snoc, flat_map_snoc.
  now rewrite <- !app_assoc.
Qed.

(** zork_python.py, last run failing: when no run before [MAX_BATCHES]
    finished the game and run [MAX_BATCHES] exits with a non-zero status,
    the loop ends with [batch = MAX_BATCHES + 1]; no "Game finished" line is
    printed, and the report says "Completed MAX_BATCHES + 1 batches", one
    more than the runs made, before [main] returns 0. *)
Theorem subprocess_last_batch_fails (max : nat) (r : Subprocess.Runner) (rc : Z) (o : pystr) :
  Subprocess.exe_exists r = true -> Subprocess.game_exists r = true ->
  (Subprocess.state_exists r = false \/ Subprocess.unlink_state r = Ok tt) ->
  (1 <= max)%nat ->
  (forall i, (1 <= i < max)%nat ->
     exists rc o, Subprocess.run_subprocess r i = Ok (rc, o)
                  /\ (rc <> 0%Z \/ contains GAME_COMPLETE o = false)) ->
  Subprocess.run_subprocess r max = Ok (rc, o) -> rc <> 0%Z ->
  Subprocess.main max r st0
  = (Ok 0%Z,
     {| plog := unlink_log r ++ flat_map (sub_call_log (Subprocess.run_subprocess r)) (seq 1 max)
                ++ [EDisplay (sub_accum (Subprocess.run_subprocess r) 0 max []); ESuccess (S max)];
        ncalls := max |}).
Proof.
  intros He Hg Hu Hm Hpre Ho Hrc.
  rewrite (sub_main_exact max r He Hg Hu).
  unfold catch_interrupt, Subprocess.session, bind at 1.
  rewrite (sub_run_to max r max {| plog := unlink_log r; ncalls := 0 |} eq_refl
             ltac:(lia) Hpre).
  cbn [plog]. rewrite Nat.sub_diag.
  pose proof (sub_step_exact max r 0
                (sub_accum (Subprocess.run_subprocess r) 0 (max - 1) [])
                {| plog := unlink_log r
                           ++ flat_map (sub_call_log (Subprocess.run_subprocess r)) (seq 1 (max - 1));
                   ncalls := (max - 1)%nat |} rc o) as E.
  cbn [plog ncalls] in E. replace (S (max - 1)) with max in E by lia.
  rewrite E by first [exact Ho | lia].
  replace (snd (Subprocess.batch_result max max rc o)) with false.
  2:{ unfold Subprocess.batch_result.
      replace (rc =? 0)%Z with false by (symmetry; now apply Z.eqb_neq). reflexivity. }
  cbn [Subprocess.batch_loop]. unfold bind, emit, ret. cbn [plog ncalls].
  assert (A : add_text (sub_accum (Subprocess.run_subprocess r) 0 (max - 1) [])
                (sub_text (Ok (rc, o)))
              = sub_accum (Subprocess.run_subprocess r) 0 max []).
  { destruct max as [|m']; [lia|]. rewrite sub_accum_snoc. cbn [Nat.add Nat.sub].
    rewrite Nat.sub_0_r, Ho. reflexivity. }
  rewrite A. destruct max as [|m']; [lia|]. cbn [Nat.sub].
  rewrite Nat.sub_0_r, seq_snoc, flat_map_snoc.
  now rewrite <- !app_assoc.
Qed.

(** zork_python.py, a run that raises: [KeyboardInterrupt] during run [j]
    is caught, "Interrupted by user" is printed and [main] returns 130
    without displaying any output; any other exception of [subprocess.run]
    (for example a missing interpreter at run time) is not caught and leaves
    [main]. *)
Theorem subprocess_run_raises (max : nat) (r : Subprocess.Runner) (j : nat) :
  Subprocess.exe_exists r = true -> Subprocess.game_exists r = true ->
  (Subprocess.state_exists r = false \/ Subprocess.unlink_state r = Ok tt) ->
  (1 <= j <= max)%nat ->
  (forall i, (1 <= i < j)%nat ->
     exists rc o, Subprocess.run_subprocess r i = Ok (rc, o)
                  /\ (rc <> 0%Z \/ contains GAME_COMPLETE o = false)) ->
  (Subprocess.run_subprocess r j = Raise KeyboardInterrupt ->
   Subprocess.main max r st0
   = (Ok 130%Z,
      {| plog := unlink_log r ++ flat_map (sub_call_log (Subprocess.run_subprocess r)) (seq 1 j)
                 ++ [EInterrupted];
         ncalls := j |}))
  /\ (Subprocess.run_subprocess r j = Raise Exception ->
   Subprocess.main max r st0
   = (Raise Exception,
      {| plog := unlink_log r ++ flat_map (sub_call_log (Subprocess.run_subprocess r)) (seq 1 j);
         ncalls := j |})).
Proof.
  intros He Hg Hu Hj Hpre.
  assert (L : forall e, Subprocess.run_subprocess r j = Raise e ->
    Subprocess.session max r {| plog := unlink_log r; ncalls := 0 |}
    = (Raise e,
       {| plog := unlink_log r ++ flat_map (sub_call_log (Subprocess.run_subprocess r)) (seq 1 j);
          ncalls := j |})).
  { intros e Hx. unfold Subprocess.session, bind at 1.
    rewrite (sub_run_to max r j {| plog := unlink_log r; ncalls := 0 |} eq_refl Hj Hpre).
    cbn [Subprocess.batch_loop].
    replace (Nat.leb j max) with true by (symmetry; apply Nat.leb_le; lia).
    unfold Subprocess.run_zork_batch, bind, call_engine. cbn [plog ncalls].
    replace (S (j - 1)) with j by lia. rewrite Hx.
    destruct j as [|j']; [lia|]. cbn [Nat.sub].
    rewrite Nat.sub_0_r, seq_snoc, flat_map_snoc.
    replace (sub_call_log (Subprocess.run_subprocess r) (S j')) with [EExec (S j')]
      by (unfold sub_call_log; now rewrite Hx).
    now rewrite <- !app_assoc. }
  split; intros Hx; rewrite (sub_main_exact max r He Hg Hu);
    unfold catch_interrupt; rewrite (L _ Hx); [|reflexivity].
  unfold bind, emit, ret. cbn [plog ncalls]. now rewrite <- app_assoc.
Qed.

(** ** Early exits and failing calls *)

(** zork_persistent.py's early returns: a missing game file returns 1
    before any device call; a failing [init_device] returns 1 and never
    calls [close_device] (no device was opened); a failing [load_game]
    returns 1 through the [finally] block, which closes the device, and no
    batch runs. *)
Theorem persistent_early_exits (max : nat) (d : Persistent.Device) (h : Z) :
  (Persistent.game_file_exists d = false ->
   Persistent.main max d st0 = (Ok 1%Z, {| plog := [EGameMissing]; ncalls := 0 |}))
  /\ (Persistent.game_file_exists d = true -> Persistent.init_device d = Raise Exception ->
   Persistent.main max d st0 = (Ok 1%Z, {| plog := [EInitDevice; EInitFailed]; ncalls := 0 |}))
  /\ (Persistent.game_file_exists d = true -> Persistent.init_device d = Ok h ->
      Persistent.load_game d = Raise Exception -> Persistent.close_device d = Ok tt ->
   Persistent.main max d st0
   = (Ok 1%Z, {| plog := [EInitDevice; ELoadGame; ELoadFailed; ECloseDevice h]; ncalls := 0 |})).
Proof.
  split; [|split].
  - intros Hg. unfold Persistent.main. rewrite Hg. reflexivity.
  - intros Hg Hi. unfold Persistent.main. rewrite Hg. cbn [negb].
    unfold bind, catch_exc, emit, lift, ret. rewrite Hi. reflexivity.
  - intros Hg Hi Hl Hc. rewrite (main_acquired max d h Hg Hi).
    unfold try_finally, Persistent.session_body, Persistent.cleanup,
      bind, catch_exc, emit, lift, ret.
    cbn [plog ncalls app]. rewrite Hl, Hc. reflexivity.
Qed.

(** zork_persistent.py: reading the state file ([open(STATE_FILE, "rb")],
    [f.read()]) is outside any [try]/[except]; when it raises, the device is
    closed by the [finally] block and the exception leaves [main] before
    any batch. *)
Theorem persistent_state_read_fails (max : nat) (d : Persistent.Device) (h : Z) (e : exc) :
  Persistent.game_file_exists d = true -> Persistent.init_device d = Ok h ->
  Persistent.load_game d = Ok tt -> Persistent.state_file_exists d = true ->
  Persistent.read_state_file d = Raise e -> Persistent.close_device d = Ok tt ->
  Persistent.main max d st0
  = (Raise e, {| plog := [EInitDevice; ELoadGame; EReadState; ECloseDevice h]; ncalls := 0 |}).
Proof.
  intros Hg Hi Hl He Hr Hc. rewrite (main_acquired max d h Hg Hi).
  unfold try_finally, Persistent.session_body, Persistent.run_session,
    Persistent.resume, Persistent.cleanup, bind, catch_exc, emit, lift, ret.
  cbn [plog ncalls app]. rewrite Hl, He, Hr, Hc. reflexivity.
Qed.

(** The device [d] whose [close_device] answers [c]. *)
Definition with_close (d : Persistent.Device) (c : res unit) : Persistent.Device := {|
  Persistent.game_file_exists := Persistent.game_file_exists d;
  Persistent.init_device := Persistent.init_device d;
  Persistent.load_game := Persistent.load_game d;
  Persistent.state_file_exists := Persistent.state_file_exists d;
  Persistent.read_state_file := Persistent.read_state_file d;
  Persistent.set_state := Persistent.set_state d;
  Persistent.execute_batch := Persistent.execute_batch d;
  Persistent.get_state := Persistent.get_state d;
  Persistent.write_state_file := Persistent.write_state_file d;
  Persistent.close_device := c |}.

Lemma session_body_with_close (max : nat) (d : Persistent.Device) (c : res unit) :
  Persistent.session_body max (with_close d c) = Persistent.session_body max d.
Proof. reflexivity. Qed.

(** zork_persistent.py: an exception from [close_device] is reported
    ("Error during close") and changes nothing else: [main] returns or
    raises what it would with a clean close, and the log only gains the
    report. *)
Theorem persistent_close_failure_harmless (max : nat) (d : Persistent.Device) :
  fst (Persistent.main max (with_close d (Raise Exception)) st0)
  = fst (Persistent.main max (with_close d (Ok tt)) st0)
  /\ forall h, Persistent.game_file_exists d = true -> Persistent.init_device d = Ok h ->
     plog (snd (Persistent.main max (with_close d (Raise Exception)) st0))
     = plog (snd (Persistent.main max (with_close d (Ok tt)) st0)) ++ [ECloseFailed].
Proof.
  assert (K : forall h, Persistent.game_file_exists d = true -> Persistent.init_device d = Ok h ->
    let m1 := Persistent.main max (with_close d (Raise Exception)) st0 in
    let m2 := Persistent.main max (with_close d (Ok tt)) st0 in
    fst m1 = fst m2 /\ plog (snd m1) = plog (snd m2) ++ [ECloseFailed]).
  { intros h Hg Hi m1 m2. unfold m1, m2.
    rewrite (main_acquired max (with_close d (Raise Exception)) h Hg Hi),
      (main_acquired max (with_close d (Ok tt)) h Hg Hi), !session_body_with_close.
    unfold try_finally.
    destruct (Persistent.session_body max d {| plog := [EInitDevice]; ncalls := 0 |})
      as [r s1].
    unfold Persistent.cleanup, bind, catch_exc, emit, lift, ret. cbn [with_close
      Persistent.close_device plog ncalls fst snd].
    split; [reflexivity|]. now rewrite <- app_assoc. }
  split.
  - destruct (Persistent.game_file_exists d) eqn:Hg.
    + destruct (Persistent.init_device d) as [h|e] eqn:Hi.
      * exact (proj1 (K h eq_refl eq_refl)).
      * unfold Persistent.main. cbn [with_close Persistent.game_file_exists
          Persistent.init_device]. rewrite Hg. cbn [negb].
        unfold bind, catch_exc, emit, lift, ret. rewrite Hi.
        destruct e; reflexivity.
    + unfold Persistent.main. cbn [with_close Persistent.game_file_exists].
      rewrite Hg. reflexivity.
  - intros h Hg Hi. exact (proj2 (K h Hg Hi)).
Qed.

(** zork_python.py's early exits: a missing executable returns 1 before the
    game file is looked at, a missing game file returns 1, and removing a
    stale state file happens before the [try:] whose handler turns
    [KeyboardInterrupt] into 130: an exception of [unlink], an interrupt
    included, leaves [main] with no run of the executable. *)
Theorem subprocess_early_exits (max : nat) (r : Subprocess.Runner) (e : exc) :
  (Subprocess.exe_exists r = false ->
   Subprocess.main max r st0 = (Ok 1%Z, {| plog := [EExeMissing]; ncalls := 0 |}))
  /\ (Subprocess.exe_exists r = true -> Subprocess.game_exists r = false ->
   Subprocess.main max r st0 = (Ok 1%Z, {| plog := [EGameMissing]; ncalls := 0 |}))
  /\ (Subprocess.exe_exists r = true -> Subprocess.game_exists r = true ->
      Subprocess.state_exists r = true -> Subprocess.unlink_state r = Raise e ->
   Subprocess.main max r st0 = (Raise e, {| plog := [EUnlinkState]; ncalls := 0 |})).
Proof.
  split; [|split].
  - intros Hx. unfold Subprocess.main. now rewrite Hx.
  - intros Hx Hg. unfold Subprocess.main. now rewrite Hx, Hg.
  - intros Hx Hg Hs Hu. unfold Subprocess.main. rewrite Hx, Hg, Hs. cbn [negb].
    unfold bind, emit, lift. cbn [plog ncalls app]. now rewrite Hu.
Qed.

(** ** Parser edge cases *)

Lemma join_split (s : pystr) : join_nl (split_nl s) = s.
Proof.
  induction s as [|c s IH]; [reflexivity|]. cbn [split_nl].
  pose proof (split_nl_nonnil s) as Hn.
  destruct (c =? NL) eqn:Hc.
  - apply N.eqb_eq in Hc. subst c.
    destruct (split_nl s) as [|l ls] eqn:E; [congruence|].
    change (join_nl ([] :: l :: ls)) with ([] ++ NL :: join_nl (l :: ls)).
    now rewrite IH.
  - destruct (split_nl s) as [|l ls] eqn:E; [congruence|].
    destruct ls as [|l' ls']; cbn [join_nl] in *; [now rewrite IH|].
    rewrite <- IH. reflexivity.
Qed.

Lemma contains_line (p l s : pystr) :
  In l (split_nl s) -> contains p l = true -> contains p s = true.
Proof.
  intros Hin Hc. apply in_split in Hin as [pre [post E]].
  rewrite <- (join_split s), E. now apply contains_join.
Qed.

Lemma p_scan_unmarked (lines : list pystr) :
  (forall l, In l lines -> contains ZORK_OUTPUT l = false /\ contains INTERPRET l = false) ->
  p_scan false lines = [].
Proof.
  induction lines as [|l lines IH]; intros H; [reflexivity|]. cbn [p_scan].
  destruct (H l (or_introl eq_refl)) as [H1 H2]. rewrite H1, H2. cbn [orb andb].
  apply IH. intros x Hx. apply H. now right.
Qed.

(** The persistent parser's payload is empty when the output contains
    neither "ZORK OUTPUT" nor "interpret(": such a batch adds nothing to the
    accumulated output. *)
Theorem p_extract_unmarked (output : pystr) :
  contains ZORK_OUTPUT output = false -> contains INTERPRET output = false ->
  p_extract output = [] /\ forall acc, add_text acc (p_extract output) = acc.
Proof.
  intros H1 H2.
  assert (E : p_extract output = []).
  { unfold p_extract. rewrite p_scan_unmarked; [reflexivity|].
    intros l Hl. split; apply not_true_iff_false; intros Hc.
    - rewrite (contains_line _ l output Hl Hc) in H1. discriminate.
    - rewrite (contains_line _ l output Hl Hc) in H2. discriminate. }
  split; [exact E|]. intros acc. now rewrite E.
Qed.

Lemma lstrip_head (s t : pystr) (c : N) : lstrip s = c :: t -> is_space c = false.
Proof.
  induction s as [|x s IH]; cbn [lstrip]; [discriminate|].
  destruct (is_space x) eqn:Hx; [exact IH|]. intros E. now injection E as -> _.
Qed.

Lemma lstrip_all_space_app (l x : pystr) : all_space l -> lstrip (l ++ x) = lstrip x.
Proof.
  induction l as [|c l IH]; intros H; [reflexivity|].
  inversion H as [|? ? Hc Hl]; subst. cbn [app lstrip]. rewrite Hc. now apply IH.
Qed.

Lemma strip_head (s t : pystr) (c : N) : strip s = c :: t -> is_space c = false.
Proof.
  unfold strip. destruct (lstrip s) as [|c0 t0] eqn:E; [discriminate|].
  pose proof (lstrip_head s t0 c0 E) as H0.
  unfold rstrip. cbn [rev].
  destruct (lstrip (rev t0)) as [|y ys] eqn:E2.
  - rewrite lstrip_all_space_app by (apply lstrip_nil_iff; exact E2).
    cbn [lstrip]. rewrite H0. cbn. intros E3. injection E3 as <- _. exact H0.
  - rewrite lstrip_app by (rewrite E2; discriminate). rewrite rev_app_distr.
    cbn. intros E3. injection E3 as <- _. exact H0.
Qed.

Lemma strip_last (s t : pystr) (c : N) : strip s = t ++ [c] -> is_space c = false.
Proof.
  unfold strip, rstrip. intros E.
  apply (lstrip_head (rev (lstrip s)) (rev t)).
  rewrite <- (rev_involutive (lstrip (rev (lstrip s)))), E.
  rewrite rev_app_distr. reflexivity.
Qed.

(** Both parsers strip their payload ([.strip()]): a payload never starts
    nor ends with a whitespace character, so the accumulated output holds
    each payload followed by exactly one newline. *)
Theorem payloads_trimmed (output t : pystr) (c : N) :
  (p_extract output = c :: t -> is_space c = false)
  /\ (p_extract output = t ++ [c] -> is_space c = false)
  /\ (py_extract output = c :: t -> is_space c = false)
  /\ (py_extract output = t ++ [c] -> is_space c = false).
Proof.
  unfold p_extract, py_extract. split; [|split; [|split]].
  - apply strip_head.
  - apply strip_last.
  - destruct (contains ACC_MARKER output); [apply strip_head|discriminate].
  - destruct (contains ACC_MARKER output); [apply strip_last|].
    intros E. destruct t; discriminate.
Qed.

(** ** A failing batch in zork_persistent.py, to the end of the session *)

(** When call [j] of [execute_batch] raises an [Exception] (earlier calls
    having printed no "Game complete"), the session prints no "Game
    finished" line, still saves the state exported after the failure,
    displays the payloads of calls 1..j-1, reports "Completed j-1 batches",
    closes the device and returns 0. *)
Theorem persistent_batch_failure_run (max : nat) (d : Persistent.Device) (h : Z) (j : nat)
    (b : list Byte.byte) :
  Persistent.game_file_exists d = true -> Persistent.init_device d = Ok h ->
  Persistent.load_game d = Ok tt -> resume_ok d = true ->
  (1 <= j <= max)%nat ->
  (forall i, (1 <= i < j)%nat ->
     exists o, Persistent.execute_batch d i = Ok o /\ contains GAME_COMPLETE o = false) ->
  Persistent.execute_batch d j = Raise Exception ->
  Persistent.get_state d = Ok b -> Persistent.write_state_file d b = Ok tt ->
  Persistent.close_device d = Ok tt ->
  Persistent.main max d st0
  = (Ok 0%Z,
     {| plog := [EInitDevice; ELoadGame] ++ resume_log d ++ map EExec (seq 1 j)
                ++ [EBatchFailed; EGetState; EWriteState b; EStateSaved;
                    EDisplay (accum (Persistent.execute_batch d) 0 (j - 1) []);
                    ESuccess (j - 1); ECloseDevice h];
        ncalls := j |}).
Proof.
  intros Hg Hi Hl Hr Hj Hpre Hx Hgs Hw Hc.
  rewrite (main_run max d h _ Hg Hi Hl (resume_log_spec d _ Hr)).
  cbn [plog ncalls].
  unfold try_finally, bind at 1.
  rewrite (persistent_run_to max _ j
             {| plog := [EInitDevice; ELoadGame] ++ resume_log d; ncalls := 0 |}
             eq_refl Hj Hpre). cbn [plog].
  pose proof (loop_fail max (Persistent.execute_batch d) (max - j)
                (accum (Persistent.execute_batch d) 0 (j - 1) [])
                {| plog := ([EInitDevice; ELoadGame] ++ resume_log d)
                           ++ map EExec (seq 1 (j - 1));
                   ncalls := (j - 1)%nat |}) as E.
  cbn [plog ncalls] in E. replace (S (j - 1)) with j in E by lia.
  rewrite E by first [exact Hx | lia].
  unfold Persistent.finish, Persistent.cleanup, bind, catch_exc, emit, lift, ret.
  rewrite Hgs, Hw, Hc. cbn [plog ncalls].
  destruct j as [|j']; [lia|]. cbn [Nat.sub]. rewrite Nat.sub_0_r, seq_snoc, map_app.
  now rewrite <- !app_assoc.
Qed.

(** ** Concrete sessions for the properties above *)

(** A device that answers "Game complete" to every batch; its other
    answers are given. *)
Definition base_device (game : bool) (init : res Z) (load : res unit) (state : bool)
    (read : res (list Byte.byte)) : Persistent.Device := {|
  Persistent.game_file_exists := game;
  Persistent.init_device := init;
  Persistent.load_game := load;
  Persistent.state_file_exists := state;
  Persistent.read_state_file := read;
  Persistent.set_state := fun _ => Ok tt;
  Persistent.execute_batch := fun _ => Ok GAME_COMPLETE;
  Persistent.get_state := Ok [];
  Persistent.write_state_file := fun _ => Ok tt;
  Persistent.close_device := Ok tt |}.

(** A runner whose executable exits with status 0 without output, except
    that the second run is interrupted. *)
Definition base_runner (exe game state : bool) (unlink : res unit) : Subprocess.Runner := {|
  Subprocess.exe_exists := exe;
  Subprocess.game_exists := game;
  Subprocess.state_exists := state;
  Subprocess.unlink_state := unlink;
  Subprocess.run_subprocess := fun n =>
    if Nat.eqb n 2 then Raise KeyboardInterrupt else Ok (0%Z, []) |}.

Lemma persistent_complete_run_witness :
  Persistent.main 3 term2_device st0
  = (Ok 0%Z,
     {| plog := [EInitDevice; ELoadGame] ++ resume_log term2_device ++ map EExec (seq 1 2)
                ++ [EFinished 2; EGetState; EWriteState []; EStateSaved;
                    EDisplay (accum (Persistent.execute_batch term2_device) 0 2 []);
                    ESuccess 2; ECloseDevice 7%Z];
        ncalls := 2 |}).
Proof.
  apply persistent_complete_run; try reflexivity; try lia.
  - intros i Hi. assert (i = 1%nat) by lia. subst i.
    eexists. split; [reflexivity|vm_compute; reflexivity].
  - eexists. split; [reflexivity|left; vm_compute; reflexivity].
Defined.

Lemma persistent_interrupted_witness :
  Persistent.main 5 (fail3_device KeyboardInterrupt) st0
  = (Raise KeyboardInterrupt,
     {| plog := [EInitDevice; ELoadGame] ++ resume_log (fail3_device KeyboardInterrupt)
                ++ map EExec (seq 1 3) ++ [ECloseDevice 7%Z];
        ncalls := 3 |}).
Proof.
  apply persistent_interrupted; try reflexivity; try lia.
  intros i Hi. destruct i as [|[|[|i]]]; try lia;
    (eexists; split; [reflexivity|vm_compute; reflexivity]).
Defined.

Lemma persistent_batch_failure_run_witness :
  Persistent.main 5 (fail3_device Exception) st0
  = (Ok 0%Z,
     {| plog := [EInitDevice; ELoadGame] ++ resume_log (fail3_device Exception)
                ++ map EExec (seq 1 3)
                ++ [EBatchFailed; EGetState; EWriteState []; EStateSaved;
                    EDisplay (accum (Persistent.execute_batch (fail3_device Exception)) 0 2 []);
                    ESuccess 2; ECloseDevice 7%Z];
        ncalls := 3 |}).
Proof.
  apply (persistent_batch_failure_run 5 (fail3_device Exception) 7%Z 3 []);
    try reflexivity; try lia.
  intros i Hi. destruct i as [|[|[|i]]]; try lia;
    (eexists; split; [reflexivity|vm_compute; reflexivity]).
Defined.

Lemma subprocess_complete_run_witness :
  Subprocess.main 3 term2_runner st0
  = (Ok 0%Z,
     {| plog := unlink_log term2_runner
                ++ flat_map (sub_call_log (Subprocess.run_subprocess term2_runner)) (seq 1 2)
                ++ [EFinished 2;
                    EDisplay (sub_accum (Subprocess.run_subprocess term2_runner) 0 2 []);
                    ESuccess 2];
        ncalls := 2 |}).
Proof.
  apply subprocess_complete_run; try reflexivity; try lia.
  - now left.
  - intros i Hi. assert (i = 1%nat) by lia. subst i.
    exists 0%Z. eexists. split; [reflexivity|right; vm_compute; reflexivity].
  - eexists. split; [reflexivity|left; vm_compute; reflexivity].
Defined.

Lemma subprocess_last_batch_fails_witness :
  Subprocess.main 1 fail1_runner st0
  = (Ok 0%Z,
     {| plog := unlink_log fail1_runner
                ++ flat_map (sub_call_log (Subprocess.run_subprocess fail1_runner)) (seq 1 1)
                ++ [EDisplay (sub_accum (Subprocess.run_subprocess fail1_runner) 0 1 []);
                    ESuccess 2];
        ncalls := 1 |}).
Proof.
  apply (subprocess_last_batch_fails 1 fail1_runner 1%Z []); try reflexivity; try lia.
  now left.
Defined.

Lemma subprocess_run_raises_witness :
  Subprocess.main 3 (base_runner true true false (Ok tt)) st0
  = (Ok 130%Z,
     {| plog := unlink_log (base_runner true true false (Ok tt))
                ++ flat_map (sub_call_log (Subprocess.run_subprocess
                                             (base_runner true true false (Ok tt)))) (seq 1 2)
                ++ [EInterrupted];
        ncalls := 2 |}).
Proof.
  apply (proj1 (subprocess_run_raises 3 (base_runner true true false (Ok tt)) 2
                  eq_refl eq_refl (or_introl eq_refl) ltac:(lia)
                  ltac:(intros i Hi; assert (i = 1%nat) by lia; subst i;
                        exists 0%Z, []; split; [reflexivity|right; reflexivity]))).
  reflexivity.
Defined.

Lemma persistent_early_exits_witness :
  Persistent.main 3 (base_device false (Ok 7%Z) (Ok tt) false (Ok [])) st0
    = (Ok 1%Z, {| plog := [EGameMissing]; ncalls := 0 |})
  /\ Persistent.main 3 (base_device true (Raise Exception) (Ok tt) false (Ok [])) st0
    = (Ok 1%Z, {| plog := [EInitDevice; EInitFailed]; ncalls := 0 |})
  /\ Persistent.main 3 (base_device true (Ok 7%Z) (Raise Exception) false (Ok [])) st0
    = (Ok 1%Z, {| plog := [EInitDevice; ELoadGame; ELoadFailed; ECloseDevice 7%Z];
                  ncalls := 0 |}).
Proof.
  split; [|split].
  - apply (proj1 (persistent_early_exits 3 _ 7%Z)). reflexivity.
  - apply (proj1 (proj2 (persistent_early_exits 3 _ 7%Z))); reflexivity.
  - apply (proj2 (proj2 (persistent_early_exits 3 _ 7%Z))); reflexivity.
Defined.

Lemma persistent_state_read_fails_witness :
  Persistent.main 3 (base_device true (Ok 7%Z) (Ok tt) true (Raise Exception)) st0
  = (Raise Exception,
     {| plog := [EInitDevice; ELoadGame; EReadState; ECloseDevice 7%Z]; ncalls := 0 |}).
Proof. apply persistent_state_read_fails; reflexivity. Defined.

Lemma persistent_close_failure_harmless_witness :
  plog (snd (Persistent.main 3 (with_close term2_device (Raise Exception)) st0))
  = plog (snd (Persistent.main 3 (with_close term2_device (Ok tt)) st0)) ++ [ECloseFailed].
Proof. apply (proj2 (persistent_close_failure_harmless 3 term2_device) 7%Z); reflexivity. Defined.

Lemma subprocess_early_exits_witness :
  Subprocess.main 3 (base_runner false true false (Ok tt)) st0
    = (Ok 1%Z, {| plog := [EExeMissing]; ncalls := 0 |})
  /\ Subprocess.main 3 (base_runner true false false (Ok tt)) st0
    = (Ok 1%Z, {| plog := [EGameMissing]; ncalls := 0 |})
  /\ Subprocess.main 3 (base_runner true true true (Raise KeyboardInterrupt)) st0
    = (Raise KeyboardInterrupt, {| plog := [EUnlinkState]; ncalls := 0 |}).
Proof.
  split; [|split].
  - apply (proj1 (subprocess_early_exits 3 _ KeyboardInterrupt)). reflexivity.
  - apply (proj1 (proj2 (subprocess_early_exits 3 _ KeyboardInterrupt))); reflexivity.
  - apply (proj2 (proj2 (subprocess_early_exits 3 _ KeyboardInterrupt))); reflexivity.
Defined.

Lemma p_extract_unmarked_witness :
  p_extract (of_ascii "Game complete") = []
  /\ forall acc, add_text acc (p_extract (of_ascii "Game complete")) = acc.
Proof. apply p_extract_unmarked; vm_compute; reflexivity. Defined.

Lemma payloads_trimmed_witness :
  is_space 102 = false.
Proof.
  apply (proj1 (payloads_trimmed (ZORK_OUTPUT ++ NL :: of_ascii " foo ") (of_ascii "oo") 102)).
  vm_compute. reflexivity.
Defined.
